(** * medico-backend: the [/process_image] handler of [app.py]

    The handler receives a prescription image, sends it to a generative
    model, cleans the model's textual reply, parses it as JSON and
    normalises every record to the [MedicineInfo] schema of the client.

    This development embeds the handler and the library functions it
    calls ([str.strip], [str.replace], [str.startswith], [str.endswith],
    slicing, [json.loads], [int], [dict.get], truthiness) and states the
    properties of the specification over that embedding.

    Conventions.
    - A Python [str] is a sequence of Unicode code points: [list N].
    - A parsed JSON value is the Python object [json.loads] builds; a
      [dict] is a finite map from strings to values ([gmap]), a [float]
      is an IEEE-754 binary64 value ([spec_float]).
    - A Python exception is a value of [exn]; code that may raise returns
      [res A]. *)

From Stdlib Require Import ZArith NArith List Bool Lia String Ascii DecimalString.
From Stdlib Require Import Floats.SpecFloat.
From stdpp Require Import base option list gmap.

Local Open Scope N_scope.

(** ** Python strings *)

Definition str : Type := list N.

(** Text literals: [u "abc"] is the Python string ['abc']; [j "{'a': 1}"]
    is the text [{"a": 1}], written with an apostrophe for each double
    quote. *)
Definition u (s : string) : str :=
  map N_of_ascii (list_ascii_of_string s).

Definition j (s : string) : str :=
  map (fun c => if c =? 39 then 34 else c) (u s).

(** [str.isspace] for one code point (the interpreter's
    [Py_UNICODE_ISSPACE]). *)
Definition is_space (c : N) : bool :=
  ((9 <=? c) && (c <=? 13)) || ((28 <=? c) && (c <=? 32))
  || (c =? 133) || (c =? 160) || (c =? 5760)
  || ((8192 <=? c) && (c <=? 8202))
  || (c =? 8232) || (c =? 8233) || (c =? 8239) || (c =? 8287)
  || (c =? 12288).

Fixpoint lstrip (s : str) : str :=
  match s with
  | [] => []
  | c :: r => if is_space c then lstrip r else s
  end.

Definition rstrip (s : str) : str := rev (lstrip (rev s)).

(** [s.strip()] *)
Definition strip (s : str) : str := rstrip (lstrip s).

(** [strip_prefix p s] is the rest of [s] after the prefix [p], when [s]
    starts with [p]. *)
Fixpoint strip_prefix (p s : str) : option str :=
  match p with
  | [] => Some s
  | a :: p' =>
      match s with
      | [] => None
      | b :: s' => if a =? b then strip_prefix p' s' else None
      end
  end.

(** [s.startswith(p)] *)
Definition startswith (p s : str) : bool :=
  match strip_prefix p s with Some _ => true | None => false end.

(** [s.endswith(p)] *)
Definition endswith (p s : str) : bool := startswith (rev p) (rev s).

(** [s[:-n]] for [n > 0]: everything but the last [n] code points. *)
Definition drop_last (n : nat) (s : str) : str :=
  take (length s - n)%nat s.

(** The remaining replacement budget of [str.replace]: [None] is
    unlimited, [Some k] allows [k] more replacements. *)
Definition may_replace (count : option nat) : bool :=
  match count with Some O => false | _ => true end.

Definition spend (count : option nat) : option nat :=
  match count with Some k => Some (Nat.pred k) | None => None end.

(** Left-to-right scan of [str.replace] for a non-empty [old]: [skip]
    counts the code points of the occurrence just replaced that are
    still to be passed over. *)
Fixpoint replace_scan (old new : str) (count : option nat) (skip : nat)
    (s : str) {struct s} : str :=
  match s with
  | [] => []
  | c :: r =>
      match skip with
      | S k => replace_scan old new count k r
      | O =>
          if may_replace count && startswith old s
          then new ++ replace_scan old new (spend count) (Nat.pred (length old)) r
          else c :: replace_scan old new count O r
      end
  end.

(** With an empty [old], [str.replace] inserts [new] before every code
    point and at the end, while the budget lasts. *)
Fixpoint replace_empty (new : str) (count : option nat) (s : str) : str :=
  if may_replace count then
    match s with
    | [] => new
    | c :: r => new ++ c :: replace_empty new (spend count) r
    end
  else s.

(** [s.replace(old, new)] and [s.replace(old, new, count)] *)
Definition replace (old new : str) (count : option nat) (s : str) : str :=
  match old with
  | [] => replace_empty new count s
  | _ :: _ => replace_scan old new count O s
  end.

(** ** Exceptions *)

(** The classes of exception the handler tells apart; [ValueError]
    stands for that class and its subclasses other than
    [JSONDecodeError], [OtherError] for every other subclass of
    [Exception]. *)
Inductive exn : Type :=
  | JSONDecodeError
  | ValueError
  | TypeError
  | OverflowError
  | AttributeError
  | OtherError.

Inductive res (A : Type) : Type :=
  | Ok (a : A)
  | Raise (e : exn).
Arguments Ok {A} a.
Arguments Raise {A} e.

(** ** Python values built by [json.loads] *)

#[warnings="-register-all"]
Inductive json : Type :=
  | JNull
  | JBool (b : bool)
  | JInt (z : Z)
  | JFloat (f : spec_float)
  | JStr (s : str)
  | JList (l : list json)
  | JDict (m : gmap str json).

(** binary64 *)
Definition prec64 : Z := 53.
Definition emax64 : Z := 1024.

Definition nan : spec_float := S754_nan.
Definition inf : spec_float := S754_infinity false.
Definition neg_inf : spec_float := S754_infinity true.

(** The value of a decimal digit string, most significant digit first. *)
Definition digits_value (ds : list N) : Z :=
  fold_left (fun acc d => (10 * acc + Z.of_N (d - 48))%Z) ds 0%Z.

(** [float(text)] for a decimal literal [(-)m * 10^e10] written with [nd]
    digits: the binary64 value nearest to it, ties to even; out of range
    gives an infinity.  The two early exits only spare the computation of
    a huge power: a non-zero [m] has [10^e10 <= m * 10^e10 < 10^(nd + e10)]. *)
Definition float_of_decimal (neg : bool) (m : Z) (nd : Z) (e10 : Z) : spec_float :=
  if (m =? 0)%Z then S754_zero neg
  else if (400 <? e10)%Z then S754_infinity neg
  else if (nd + e10 <? -400)%Z then S754_zero neg
  else if (0 <=? e10)%Z then
    match (m * 10 ^ e10)%Z with
    | Zpos p => binary_round prec64 emax64 neg p 0
    | _ => S754_zero neg
    end
  else
    let '(q, e, l) := SFdiv_core_binary prec64 emax64 m 0 (10 ^ (- e10))%Z 0 in
    binary_round_aux prec64 emax64 neg q e l.

(** ** [json.loads]

    The decoder of the standard library (its default scanner): the only
    exception it raises on a [str] is [JSONDecodeError], so the scanning
    functions return an [option].  A leading byte order mark is refused
    with that same exception, as the scanner refuses it, so the check is
    not written out.  The interpreter's optional limits on nesting depth
    and on the length of integer literals are not part of the model; the
    handler with its output takes them from its host
    ([decoder_limit]). *)

(** JSON white space: space, tab, line feed, carriage return. *)
Definition is_json_ws (c : N) : bool :=
  (c =? 32) || (c =? 9) || (c =? 10) || (c =? 13).

Fixpoint skip_ws (s : str) : str :=
  match s with
  | [] => []
  | c :: r => if is_json_ws c then skip_ws r else s
  end.

Definition is_digit (c : N) : bool := (48 <=? c) && (c <=? 57).

Definition hex_val (c : N) : option N :=
  if is_digit c then Some (c - 48)
  else if (97 <=? c) && (c <=? 102) then Some (c - 87)
  else if (65 <=? c) && (c <=? 70) then Some (c - 55)
  else None.

Definition hex4 (a b c d : N) : option N :=
  match hex_val a, hex_val b, hex_val c, hex_val d with
  | Some x, Some y, Some z, Some w => Some (((x * 16 + y) * 16 + z) * 16 + w)
  | _, _, _, _ => None
  end.

(** The character denoted by a one-letter escape. *)
Definition simple_escape (c : N) : option N :=
  if c =? 34 then Some 34          (* quote *)
  else if c =? 92 then Some 92     (* backslash *)
  else if c =? 47 then Some 47     (* slash *)
  else if c =? 98 then Some 8      (* b: backspace *)
  else if c =? 102 then Some 12    (* f: form feed *)
  else if c =? 110 then Some 10    (* n: line feed *)
  else if c =? 114 then Some 13    (* r: carriage return *)
  else if c =? 116 then Some 9     (* t: tab *)
  else None.

(** Pieces of a string literal: a code point, or the value of a
    [\uXXXX] escape (two of which may form a surrogate pair). *)
Inductive str_item : Type :=
  | Lit (c : N)
  | Esc (c : N).

(** Scans the body of a string literal, after its opening quote, in
    strict mode: control characters are refused. *)
Fixpoint scan_items (s : str) : option (list str_item * str) :=
  match s with
  | [] => None
  | c :: r =>
      if c =? 34 then Some ([], r)
      else if c =? 92 then
        match r with
        | [] => None
        | e :: r1 =>
            if e =? 117 then
              match r1 with
              | a :: b :: c2 :: d :: r2 =>
                  match hex4 a b c2 d with
                  | Some n =>
                      match scan_items r2 with
                      | Some (items, rest) => Some (Esc n :: items, rest)
                      | None => None
                      end
                  | None => None
                  end
              | _ => None
              end
            else
              match simple_escape e with
              | Some x =>
                  match scan_items r1 with
                  | Some (items, rest) => Some (Lit x :: items, rest)
                  | None => None
                  end
              | None => None
              end
        end
      else if c <? 32 then None
      else
        match scan_items r with
        | Some (items, rest) => Some (Lit c :: items, rest)
        | None => None
        end
  end.

Definition is_high_surrogate (c : N) : bool := (55296 <=? c) && (c <=? 56319).
Definition is_low_surrogate (c : N) : bool := (56320 <=? c) && (c <=? 57343).

(** A high surrogate escape directly followed by a low surrogate escape
    is one code point; every other escape stands for itself. *)
Fixpoint join_surrogates (items : list str_item) : str :=
  match items with
  | [] => []
  | Lit c :: rest => c :: join_surrogates rest
  | Esc h :: rest =>
      match rest with
      | Esc l :: rest' =>
          if is_high_surrogate h && is_low_surrogate l
          then (65536 + (h - 55296) * 1024 + (l - 56320)) :: join_surrogates rest'
          else h :: join_surrogates rest
      | _ => h :: join_surrogates rest
      end
  end.

Definition scanstring (s : str) : option (str * str) :=
  match scan_items s with
  | Some (items, rest) => Some (join_surrogates items, rest)
  | None => None
  end.

(** The longest run of ASCII digits at the head of [s]. *)
Fixpoint take_digits (s : str) : list N * str :=
  match s with
  | [] => ([], [])
  | c :: r =>
      if is_digit c
      then let '(ds, rest) := take_digits r in (c :: ds, rest)
      else ([], s)
  end.

(** Integer part of a number: a single [0], or a non-zero digit and the
    digits after it. *)
Definition int_part (s : str) : option (list N * str) :=
  match s with
  | [] => None
  | c :: r =>
      if c =? 48 then Some ([c], r)
      else if is_digit c then let '(ds, rest) := take_digits r in Some (c :: ds, rest)
      else None
  end.

(** Fraction: a dot followed by at least one digit, or nothing. *)
Definition frac_part (s : str) : list N * str :=
  match s with
  | p :: d :: r =>
      if (p =? 46) && is_digit d then take_digits (d :: r) else ([], s)
  | _ => ([], s)
  end.

(** Exponent: [e] or [E], an optional sign and at least one digit, or
    nothing (the scanner backtracks to before the [e]). *)
Definition exp_part (s : str) : option (bool * list N) * str :=
  match s with
  | e :: r =>
      if (e =? 101) || (e =? 69) then
        let '(sg, r') :=
          match r with
          | c :: t =>
              if c =? 45 then (true, t)
              else if c =? 43 then (false, t)
              else (false, r)
          | [] => (false, r)
          end in
        match take_digits r' with
        | ([], _) => (None, s)
        | (ds, rest) => (Some (sg, ds), rest)
        end
      else (None, s)
  | [] => (None, s)
  end.

Definition match_number (s : str) : option (json * str) :=
  let '(neg, s1) :=
    match s with
    | c :: r => if c =? 45 then (true, r) else (false, s)
    | [] => (false, s)
    end in
  match int_part s1 with
  | None => None
  | Some (ids, s2) =>
      let '(fds, s3) := frac_part s2 in
      let '(ex, s4) := exp_part s3 in
      match fds, ex with
      | [], None =>
          Some (JInt (if neg then - digits_value ids else digits_value ids)%Z, s4)
      | _, _ =>
          let e :=
            match ex with
            | Some (true, eds) => (- digits_value eds)%Z
            | Some (false, eds) => digits_value eds
            | None => 0%Z
            end in
          let ds := ids ++ fds in
          Some (JFloat (float_of_decimal neg (digits_value ds)
                          (Z.of_nat (length ds)) (e - Z.of_nat (length fds))), s4)
      end
  end.

(** [dict(pairs)]: a later pair overrides an earlier one with its key. *)
Definition dict_of_pairs (kvs : list (str * json)) : gmap str json :=
  fold_left (fun m kv => <[kv.1 := kv.2]> m) kvs ∅.

(** [scan_once fuel s] decodes the JSON value at the head of [s] and
    returns it with the unread rest.  [parse_array] reads the elements of
    a non-empty array, [parse_members] the members of a non-empty object,
    each up to and including the closing bracket.  [fuel] bounds the
    number of nested calls. *)
Fixpoint scan_once (fuel : nat) (s : str) {struct fuel} : option (json * str) :=
  match fuel with
  | O => None
  | S n =>
      match s with
      | [] => None
      | c :: r =>
          if c =? 34 then
            match scanstring r with
            | Some (t, rest) => Some (JStr t, rest)
            | None => None
            end
          else if c =? 123 then
            match skip_ws r with
            | c' :: r' =>
                if c' =? 125 then Some (JDict ∅, r')
                else
                  match parse_members n (skip_ws r) with
                  | Some (kvs, rest) => Some (JDict (dict_of_pairs kvs), rest)
                  | None => None
                  end
            | [] => None
            end
          else if c =? 91 then
            match skip_ws r with
            | c' :: r' =>
                if c' =? 93 then Some (JList [], r')
                else
                  match parse_array n (skip_ws r) with
                  | Some (vs, rest) => Some (JList vs, rest)
                  | None => None
                  end
            | [] => None
            end
          else if c =? 110 then
            match strip_prefix (u "ull") r with
            | Some rest => Some (JNull, rest)
            | None => None
            end
          else if c =? 116 then
            match strip_prefix (u "rue") r with
            | Some rest => Some (JBool true, rest)
            | None => None
            end
          else if c =? 102 then
            match strip_prefix (u "alse") r with
            | Some rest => Some (JBool false, rest)
            | None => None
            end
          else if c =? 78 then
            match strip_prefix (u "aN") r with
            | Some rest => Some (JFloat nan, rest)
            | None => None
            end
          else if c =? 73 then
            match strip_prefix (u "nfinity") r with
            | Some rest => Some (JFloat inf, rest)
            | None => None
            end
          else if c =? 45 then
            match strip_prefix (u "Infinity") r with
            | Some rest => Some (JFloat neg_inf, rest)
            | None => match_number s
            end
          else match_number s
      end
  end
with parse_array (fuel : nat) (s : str) {struct fuel} : option (list json * str) :=
  match fuel with
  | O => None
  | S n =>
      match scan_once n s with
      | None => None
      | Some (v, r) =>
          match skip_ws r with
          | c :: r' =>
              if c =? 93 then Some ([v], r')
              else if c =? 44 then
                match parse_array n (skip_ws r') with
                | Some (vs, rest) => Some (v :: vs, rest)
                | None => None
                end
              else None
          | [] => None
          end
      end
  end
with parse_members (fuel : nat) (s : str) {struct fuel} : option (list (str * json) * str) :=
  match fuel with
  | O => None
  | S n =>
      match s with
      | q :: r =>
          if q =? 34 then
            match scanstring r with
            | None => None
            | Some (key, r1) =>
                match skip_ws r1 with
                | c :: r2 =>
                    if c =? 58 then
                      match scan_once n (skip_ws r2) with
                      | None => None
                      | Some (v, r3) =>
                          match skip_ws r3 with
                          | d :: r4 =>
                              if d =? 125 then Some ([(key, v)], r4)
                              else if d =? 44 then
                                match parse_members n (skip_ws r4) with
                                | Some (kvs, rest) => Some ((key, v) :: kvs, rest)
                                | None => None
                                end
                              else None
                          | [] => None
                          end
                      end
                    else None
                | [] => None
                end
            end
          else None
      | [] => None
      end
  end.

(** [json.loads(s)]: one value, surrounded by optional white space, and
    nothing else.  One unit of fuel per code point is always enough
    (lemma [scan_once_fuel] below). *)
Definition json_loads (s : str) : res json :=
  match scan_once (S (length s)) (skip_ws s) with
  | Some (v, r) =>
      match skip_ws r with
      | [] => Ok v
      | _ :: _ => Raise JSONDecodeError
      end
  | None => Raise JSONDecodeError
  end.

(** ** The handler

    The [print] statements of the handler are left out in this part: it
    is the handler on a standard output that takes every line.  They
    are added, with the messages of the exceptions, in the part on the
    handler with its output. *)

#[global] Instance res_ret : MRet res := fun A a => Ok a.
#[global] Instance res_bind : MBind res := fun A B f m =>
  match m with
  | Ok a => f a
  | Raise e => Raise e
  end.

(** Truth value of a Python object ([bool(v)]), as used by [or]. *)
Definition truthy (v : json) : bool :=
  match v with
  | JNull => false
  | JBool b => b
  | JInt z => negb (z =? 0)%Z
  | JFloat (S754_zero _) => false
  | JFloat _ => true
  | JStr s => match s with [] => false | _ :: _ => true end
  | JList l => match l with [] => false | _ :: _ => true end
  | JDict m => negb (bool_decide (m = ∅))
  end.

(** [v or d] *)
Definition py_or (v d : json) : json := if truthy v then v else d.

(** [int(f)] for a float: truncation toward zero; [nan] and the
    infinities have no integer value. *)
Definition int_of_float (f : spec_float) : res Z :=
  match f with
  | S754_zero _ => Ok 0%Z
  | S754_finite s m e =>
      let a := Z.shiftl (Zpos m) e in
      Ok (if s then - a else a)%Z
  | S754_nan => Raise ValueError
  | S754_infinity _ => Raise OverflowError
  end.

(** White space of the C locale, skipped by [int] around the digits. *)
Definition is_c_space (c : N) : bool :=
  ((9 <=? c) && (c <=? 13)) || (c =? 32).

Fixpoint skip_c_space (s : str) : str :=
  match s with
  | [] => []
  | c :: r => if is_c_space c then skip_c_space r else s
  end.

(** Digits of an integer literal, where single underscores may separate
    digits; [prev_us] tells that the previous character was one. *)
Fixpoint int_digits (prev_us : bool) (acc : Z) (s : str) : option (Z * str) :=
  match s with
  | [] => if prev_us then None else Some (acc, [])
  | c :: r =>
      if is_digit c then int_digits false (10 * acc + Z.of_N (c - 48))%Z r
      else if c =? 95 then
        if prev_us then None else int_digits true acc r
      else if prev_us then None else Some (acc, s)
  end.

(** [sys.get_int_max_str_digits()]: the limit of the interpreter on the
    number of digits of a decimal string converted to an [int], at its
    default value. *)
Definition int_max_str_digits : nat := 4300.

Section Handler.

(** The decimal digit value of the non-ASCII code points, from the
    Unicode database of the interpreter (category Nd); it changes with
    the Unicode version, so it is a parameter. *)
Variable unicode_decimal : N -> option N.

(** [int] first rewrites the string to ASCII: Unicode spaces become a
    space, Unicode decimal digits the ASCII digit of their value, every
    other non-ASCII code point a question mark. *)
Definition to_ascii_digit (c : N) : N :=
  if c <? 127 then c
  else if is_space c then 32
  else match unicode_decimal c with
       | Some d => 48 + d
       | None => 63
       end.

(** [int(s)] for a string, base 10.  A literal with more digits than
    [int_max_str_digits] (underscores and the sign are not counted,
    leading zeros are) is refused with [ValueError]. *)
Definition int_of_str (s : str) : res Z :=
  let t := skip_c_space (map to_ascii_digit s) in
  let '(neg, t1) :=
    match t with
    | c :: r =>
        if c =? 43 then (false, r)
        else if c =? 45 then (true, r)
        else (false, t)
    | [] => (false, t)
    end in
  match t1 with
  | c :: _ =>
      if is_digit c then
        match int_digits false 0%Z t1 with
        | Some (z, rest) =>
            match skip_c_space rest with
            | [] =>
                if (int_max_str_digits <? length (List.filter is_digit t1))%nat
                then Raise ValueError
                else Ok (if neg then - z else z)%Z
            | _ :: _ => Raise ValueError
            end
        | None => Raise ValueError
        end
      else Raise ValueError
  | [] => Raise ValueError
  end.

(** [int(v)] *)
Definition py_int (v : json) : res Z :=
  match v with
  | JInt z => Ok z
  | JBool b => Ok (if b then 1 else 0)%Z
  | JFloat f => int_of_float f
  | JStr s => int_of_str s
  | JNull | JList _ | JDict _ => Raise TypeError
  end.

(** [item.get(key, dflt)] on a dict. *)
Definition dict_get (m : gmap str json) (key : str) (dflt : json) : json :=
  default dflt (m !! key).

(** Lines 135-138: the new value of [item['duration']]; an exception
    other than [ValueError] and [TypeError] escapes the [try]. *)
Definition coerce_duration (m : gmap str json) : res Z :=
  match py_int (dict_get m (u "duration") (JInt (-1))) with
  | Ok z => Ok z
  | Raise ValueError | Raise TypeError => Ok (-1)%Z
  | Raise e => Raise e
  end.

(** [item[key] = item.get(key, dflt) or dflt] *)
Definition default_field (key : str) (dflt : json) (m : gmap str json)
    : gmap str json :=
  <[key := py_or (dict_get m key dflt) dflt]> m.

(** Lines 134-150 on a dict: the body of the loop. *)
Definition normalize_record (m : gmap str json) : res (gmap str json) :=
  d ← coerce_duration m;
  let m1 := <[u "duration" := JInt d]> m in
  let m2 := default_field (u "meal") (JStr (u "anytime")) m1 in
  let m3 := default_field (u "frequency") (JStr []) m2 in
  let m4 := default_field (u "quantity") (JStr []) m3 in
  let m5 := default_field (u "name") (JStr []) m4 in
  Ok m5.

(** The body of the loop on any element of the parsed list: only a
    dict has a [get] method. *)
Definition normalize_item (item : json) : res json :=
  match item with
  | JDict m => m' ← normalize_record m; Ok (JDict m')
  | _ => Raise AttributeError
  end.

(** Lines 133-150.  The loop updates the elements of the list in
    place, one after the other, and stops at the first element whose
    body raises; that element (the exception comes before any
    assignment) and the ones after it stay as they were.  The result is
    the list after the loop and the exception that ended it, if any. *)
Fixpoint normalize_loop (items : list json) : list json * option exn :=
  match items with
  | [] => ([], None)
  | item :: rest =>
      match normalize_item item with
      | Ok item' =>
          let '(rest', e) := normalize_loop rest in (item' :: rest', e)
      | Raise e => (item :: rest, Some e)
      end
  end.

(** Lines 104-107: removal of a markdown fence. *)
Definition strip_fences (text : str) : str :=
  let t1 :=
    if startswith (u "```json") text
    then strip (replace (u "```json") [] (Some 1%nat) text)
    else text in
  if endswith (u "```") t1 then strip (drop_last 3 t1) else t1.

(** Line 111: removal of trailing commas. *)
Definition cleanup_commas (text : str) : str :=
  strip (replace (u ",}") (u "}") None (replace (u ",]") (u "]") None text)).

(** Lines 104-111: the text handed to [json.loads], which is also the
    [extracted_text] of the reply. *)
Definition clean_text (text : str) : str :=
  cleanup_commas (strip_fences text).

(** Lines 100-127: the cleaned text and the list [medicine_details]
    before normalisation.  Only [JSONDecodeError] is caught here. *)
Definition parse_reply (text : str) : res (str * list json) :=
  let t := clean_text text in
  match json_loads t with
  | Ok (JList l) => Ok (t, l)
  | Ok (JDict m) => Ok (t, [JDict m])
  | Ok _ => Ok (t, [])
  | Raise JSONDecodeError => Ok (t, [])
  | Raise e => Raise e
  end.

(** An uploaded file of the multipart form. *)
Record FileStorage : Type := {
  filename : str;
  mimetype : str;
  content : list N
}.

(** [request.files]: the file fields of the form, in order. *)
Definition Files : Type := list (str * FileStorage).

(** [key in files] and [files[key]] (the first file of that name). *)
Fixpoint files_get (key : str) (fs : Files) : option FileStorage :=
  match fs with
  | [] => None
  | (k, f) :: rest => if bool_decide (k = key) then Some f else files_get key rest
  end.

(** What [jsonify(...), code] returns: the status and the object that
    is serialised as the body. *)
Record Response : Type := {
  status : Z;
  body : json
}.

(** A call of the generative model: the MIME type and the bytes of the
    image (the prompt is a constant of the handler). *)
Definition ModelCall : Type := (str * list N)%type.

(** The external model: [model.generate_content(...)] followed by
    [response.text]; it returns a text or raises. *)
Variable generate_content : ModelCall -> res str.

Definition error_body (msg : string) : json :=
  JDict {[ u "error" := JStr (u msg) ]}.

Definition success_body (text : str) (details : list json) : json :=
  JDict (<[u "extracted_text" := JStr text]>
           {[ u "medicine_details" := JList details ]}).

(** Lines 35-156: the body of the outer [try], after the two checks on
    the upload. *)
Definition process_upload (image_file : FileStorage) : res (str * list json) :=
  raw ← generate_content (mimetype image_file, content image_file);
  '(text, details) ← parse_reply (strip raw);
  match normalize_loop details with
  | (details', None) => Ok (text, details')
  | (_, Some e) => Raise e
  end.

(** [process_image]: the response, and the calls of the external model
    made while handling the request. *)
Definition process_image (files : Files) : Response * list ModelCall :=
  match files_get (u "image") files with
  | None =>
      ({| status := 400; body := error_body "No image file provided" |}, [])
  | Some image_file =>
      match filename image_file with
      | [] =>
          ({| status := 400; body := error_body "No selected image file" |}, [])
      | _ :: _ =>
          (match process_upload image_file with
           | Ok (text, details) =>
               {| status := 200; body := success_body text details |}
           | Raise _ =>
               {| status := 500;
                  body := error_body
                    "An internal server error occurred during image processing." |}
           end,
           [(mimetype image_file, content image_file)])
      end
  end.

End Handler.

(** * Vocabulary of the properties *)

(** The five fields of a [MedicineInfo] record. *)
Definition schema_keys : list str :=
  [u "name"; u "quantity"; u "duration"; u "meal"; u "frequency"].

(** The value is a Python [str]. *)
Definition is_str (v : json) : bool :=
  match v with JStr _ => true | _ => false end.

(** The fixed upload used in the worked examples. *)
Definition sample_upload : Files :=
  [(u "image",
    {| filename := u "rx.png"; mimetype := u "image/png"; content := [137; 80; 78; 71] |})].

(** A digit table with the Arabic-Indic digits only, for the examples. *)
Definition arabic_indic (c : N) : option N :=
  if (1632 <=? c) && (c <=? 1641) then Some (c - 1632) else None.

(** The record after the body of the loop, field by field. *)
Definition normalized (m : gmap str json) (d : Z) : gmap str json :=
  <[u "name" := py_or (dict_get m (u "name") (JStr [])) (JStr [])]>
    (<[u "quantity" := py_or (dict_get m (u "quantity") (JStr [])) (JStr [])]>
       (<[u "frequency" := py_or (dict_get m (u "frequency") (JStr [])) (JStr [])]>
          (<[u "meal" := py_or (dict_get m (u "meal") (JStr (u "anytime"))) (JStr (u "anytime"))]>
             (<[u "duration" := JInt d]> m)))).

(** The reply of the outer [except] (lines 158-161). *)
Definition internal_error : Response :=
  {| status := 500;
     body := error_body "An internal server error occurred during image processing." |}.


(** Two records for the worked examples. *)
Definition sample_records : list (gmap str json) :=
  [ {[ u "name" := JStr (u "X") ]};
    <[u "name" := JStr (u "Paracetamol")]>
      (<[u "duration" := JStr (u "7")]>
         (<[u "meal" := JNull]> {[ u "note" := JStr (u "after food") ]})) ].

(** The text starts with the code point [b]. *)
Definition head_is (b : N) (s : str) : bool :=
  match s with y :: _ => y =? b | [] => false end.

(** The text without the commas that stand immediately before [c]. *)
Fixpoint drop_commas (c : N) (s : str) : str :=
  match s with
  | [] => []
  | x :: r =>
      if (x =? 44) && head_is c r then drop_commas c r else x :: drop_commas c r
  end.

(** [adjacent a b s]: somewhere in [s], [a] is immediately followed by
    [b]. *)
Fixpoint adjacent (a b : N) (s : str) : bool :=
  match s with
  | [] => false
  | x :: r => ((x =? a) && head_is b r) || adjacent a b r
  end.

(** A comma immediately precedes a closing bracket or brace. *)
Definition comma_before_closer (s : str) : bool :=
  adjacent 44 93 s || adjacent 44 125 s.

(** [a] is a contiguous part of [b]. *)
Definition infix_of (a b : str) : Prop := exists x y, b = x ++ a ++ y.

(** A closing bracket or a closing brace. *)
Definition is_closer (c : N) : bool := (c =? 93) || (c =? 125).

(** Code points the cleanup may remove: the comma and the spaces. *)
Definition removable (x : N) : bool := (x =? 44) || is_space x.

(** [similar drops s t]: [t] is [s] where a final run of spaces may be
    cut off and where, when [drops] is set, some commas standing
    immediately before a closing bracket or brace are deleted. *)
Inductive similar (drops : bool) : str -> str -> Prop :=
  | sim_end w : forallb is_space w = true -> similar drops w []
  | sim_keep x s t : similar drops s t -> similar drops (x :: s) (x :: t)
  | sim_drop c s t :
      drops = true -> is_closer c = true -> similar drops s t ->
      similar drops (44 :: c :: s) (c :: t).

(** The test [p] on the first code point of a text. *)
Definition head_test (p : N -> bool) (s : str) : bool :=
  match s with x :: _ => p x | [] => false end.

(** A test that refuses the removable code points and the closers. *)
Definition steady (p : N -> bool) : Prop :=
  forall x, p x = true -> removable x = false /\ is_closer x = false.

(** The letter that starts an exponent. *)
Definition is_exp_mark (e : N) : bool := (e =? 101) || (e =? 69).

(** The route [/test] (lines 22-24): a fixed greeting. *)
Definition test : str := u "hello shravan".

(** The record has an infinite float as its duration. *)
Definition infinite_duration (m : gmap str json) : bool :=
  match m !! u "duration" with
  | Some (JFloat (S754_infinity _)) => true
  | _ => false
  end.

(** The elements on which the body of the loop does not raise: the
    dicts whose duration is not an infinite float. *)
Definition loop_accepts (item : json) : bool :=
  match item with
  | JDict m => negb (infinite_duration m)
  | _ => false
  end.

(** A field that is missing, [null] or a string. *)
Definition texty (o : option json) : bool :=
  match o with
  | None | Some JNull | Some (JStr _) => true
  | Some _ => false
  end.

(** The four text fields of the schema. *)
Definition text_keys : list str :=
  [u "name"; u "quantity"; u "meal"; u "frequency"].

(** The code points a JSON value can end with: a digit, a quote, a
    closing bracket or brace, and the last letters of [null], [true],
    [false], [NaN] and [Infinity]. *)
Definition value_end (x : N) : bool :=
  is_digit x || (x =? 34) || (x =? 93) || (x =? 125)
  || (x =? 108) || (x =? 101) || (x =? 78) || (x =? 121).

(** The text ends with an ASCII digit. *)
Definition ends_with_digit (c : str) : Prop :=
  exists p x, c = p ++ [x] /\ is_digit x = true.

(** The text is empty or starts with a backtick. *)
Definition backtick_start (s : str) : Prop :=
  match s with
  | [] => True
  | x :: _ => x = 96
  end.

(** An ASCII letter. *)
Definition is_letter (c : N) : bool :=
  ((65 <=? c) && (c <=? 90)) || ((97 <=? c) && (c <=? 122)).

(** [item.get(key, dflt) or dflt] in terms of the record: the value
    found when it is truthy, the default otherwise. *)
Definition found_or (m : gmap str json) (k : str) (dflt : json) : json :=
  match m !! k with
  | Some w => if truthy w then w else dflt
  | None => dflt
  end.

(** * The handler with its output

    [process_image] above leaves the [print] statements of the handler
    out: it is the handler on a server whose standard output takes every
    line.  Here each [print] is a step that can raise, exceptions carry
    their message, and the calls of the model and the lines printed are
    threaded through the run. *)

(** An exception with the text of [str(e)]. *)
Record Failure : Type := {
  kind : exn;
  message : str
}.

(** How a piece of the handler ends: with a value or with an
    exception. *)
Inductive outcome (A : Type) : Type :=
  | Returns (a : A)
  | Raises (e : Failure).
Arguments Returns {A} a.
Arguments Raises {A} e.

(** What the handler has done to the world outside: the calls of the
    model and the lines printed, oldest first. *)
Record World : Type := {
  calls : list ModelCall;
  printed : list str
}.

(** A piece of the handler: from the world before to its outcome and
    the world after. *)
Definition io (A : Type) : Type := World -> outcome A * World.

#[global] Instance io_ret : MRet io := fun A a w => (Returns a, w).
#[global] Instance io_bind : MBind io := fun A B f m w =>
  match m w with
  | (Returns a, w') => f a w'
  | (Raises e, w') => (Raises e, w')
  end.

(** A step without effect on the world. *)
Definition pure {A : Type} (r : outcome A) : io A := fun w => (r, w).

(** [try: body except <class> as e: handler e], where [catches] tells
    the exceptions of the class. *)
Definition try_except {A : Type} (body : io A) (catches : Failure -> bool)
    (handler : Failure -> io A) : io A :=
  fun w =>
    match body w with
    | (Raises e, w') => if catches e then handler e w' else (Raises e, w')
    | (Returns a, w') => (Returns a, w')
    end.

(** [except json.JSONDecodeError] *)
Definition is_decode_error (e : Failure) : bool :=
  match kind e with JSONDecodeError => true | _ => false end.

(** [except Exception] *)
Definition is_exception (e : Failure) : bool := true.

(** [type(v).__name__] *)
Definition type_name (v : json) : str :=
  match v with
  | JNull => u "NoneType"
  | JBool _ => u "bool"
  | JInt _ => u "int"
  | JFloat _ => u "float"
  | JStr _ => u "str"
  | JList _ => u "list"
  | JDict _ => u "dict"
  end.

(** The exception of the body of the loop on [item], with its message:
    [int] on an infinite float raises [OverflowError], [item.get] on a
    value without that method raises [AttributeError]. *)
Definition item_failure (item : json) (e : exn) : Failure :=
  {| kind := e;
     message :=
       match e with
       | OverflowError => u "cannot convert float infinity to integer"
       | _ => u "'" ++ type_name item ++ u "' object has no attribute 'get'"
       end |}.

(** [str(z)] for an [int]: its decimal digits, refused beyond
    [int_max_str_digits] digits. *)
Definition decimal (z : Z) : str := u (NilZero.string_of_int (Z.to_int z)).

Definition str_of_int (z : Z) : outcome str :=
  if (int_max_str_digits <? length (decimal (Z.abs z)))%nat
  then Raises {| kind := ValueError;
                 message := u "Exceeds the limit (4300 digits) for integer string conversion; use sys.set_int_max_str_digits() to increase the limit" |}
  else Returns (decimal z).

(** The surroundings of the handler: what this development takes from
    the interpreter, its libraries and the machine. *)
Record Host : Type := {
  (** The decimal digit value of the non-ASCII code points. *)
  unicode_decimal : N -> option N;
  (** The external model: [model.generate_content(...)] followed by
      [response.text]; it returns a text or raises. *)
  generate_content : ModelCall -> outcome str;
  (** The standard output of the server: [stdout line] is [None] when
      [print(line)] writes the line, and the exception it raises
      otherwise (an encoding error when the stream cannot encode the
      line). *)
  stdout : str -> option Failure;
  (** [str(e)] for the [JSONDecodeError] that [json.loads] raises on a
      text. *)
  decode_error_message : str -> str;
  (** [repr(f)] for a float, the shortest decimal text that reads back
      as [f]. *)
  float_repr : spec_float -> str;
  (** [json.loads] at the limits of the interpreter: the exception it
      raises on a text because an integer literal has more digits than
      [int_max_str_digits] ([ValueError]) or because the nesting
      exhausts the stack ([RecursionError]), and [None] on every other
      text.  The limits depend on the interpreter and on its state. *)
  decoder_limit : str -> option Failure
}.

Section Output.

Variable host : Host.

Definition print (line : str) : io unit := fun w =>
  match stdout host line with
  | None => (Returns tt, {| calls := calls w; printed := printed w ++ [line] |})
  | Some e => (Raises e, w)
  end.

Definition call_model (c : ModelCall) : io str := fun w =>
  (generate_content host c, {| calls := calls w ++ [c]; printed := printed w |}).

(** Line 114, with the limits of the interpreter and the message of
    the exception. *)
Definition decode (t : str) : outcome json :=
  match decoder_limit host t with
  | Some e => Raises e
  | None =>
      match json_loads t with
      | Ok v => Returns v
      | Raise e => Raises {| kind := e; message := decode_error_message host t |}
      end
  end.

(** Lines 133-150, with the message of the exception; the list is
    only used when the loop has run to its end. *)
Fixpoint normalize_all (items : list json) : outcome (list json) :=
  match items with
  | [] => Returns []
  | item :: rest =>
      match normalize_item (unicode_decimal host) item with
      | Ok item' =>
          match normalize_all rest with
          | Returns rest' => Returns (item' :: rest')
          | Raises e => Raises e
          end
      | Raise e => Raises (item_failure item e)
      end
  end.

(** Lines 114-123: the body of the inner [try] on the cleaned text
    [t]. *)
Definition parse_body (t : str) : io (str * list json) :=
  let fallback (shown : outcome str) : io (str * list json) :=
    s ← pure shown;
    _ ← print (u "Gemini returned non-list, non-dict JSON: " ++ s);
    mret (t, []) in
  parsed_json ← pure (decode t);
  match parsed_json with
  | JList l => mret (t, l)
  | JDict m => mret (t, [JDict m])
  | JNull => fallback (Returns (u "None"))
  | JBool b => fallback (Returns (if b then u "True" else u "False"))
  | JInt z => fallback (str_of_int z)
  | JFloat f => fallback (Returns (float_repr host f))
  | JStr s => fallback (Returns s)
  end.

(** Lines 124-127: the [except] of the inner [try]. *)
Definition decode_failed (t : str) (json_e : Failure) : io (str * list json) :=
  _ ← print (u "Error decoding JSON from Gemini: " ++ message json_e);
  _ ← print (u "Malformed JSON string that caused error: '" ++ t ++ u "'");
  mret (t, []).

(** Lines 100-127 with their [print] statements. *)
Definition parse_reply_logged (text : str) : io (str * list json) :=
  let t := clean_text text in
  try_except (parse_body t) is_decode_error (decode_failed t).

(** Lines 36-156: the body of the outer [try]. *)
Definition upload_body (image_file : FileStorage) : io Response :=
  raw ← call_model (mimetype image_file, content image_file);
  let text := strip raw in
  _ ← print (u "Gemini raw response: " ++ text);
  '(text', details) ← parse_reply_logged text;
  details' ← pure (normalize_all details);
  mret {| status := 200; body := success_body text' details' |}.

(** Lines 158-161: the [except] of the outer [try]. *)
Definition server_error (e : Failure) : io Response :=
  _ ← print (u "Server error: " ++ message e);
  mret {| status := 500;
          body := error_body
            "An internal server error occurred during image processing." |}.

(** Lines 35-161. *)
Definition process_upload_logged (image_file : FileStorage) : io Response :=
  try_except (upload_body image_file) is_exception server_error.

(** [process_image] with its [print] statements: the outcome is the
    response returned, or the exception that leaves the function. *)
Definition process_image_logged (files : Files) : io Response :=
  match files_get (u "image") files with
  | None =>
      mret {| status := 400; body := error_body "No image file provided" |}
  | Some image_file =>
      match filename image_file with
      | [] =>
          mret {| status := 400; body := error_body "No selected image file" |}
      | _ :: _ => process_upload_logged image_file
      end
  end.

End Output.

(** The model of [process_image] that goes with a model of the logged
    handler: the message of its exception is dropped. *)
Definition quiet (generate : ModelCall -> outcome str) (c : ModelCall) : res str :=
  match generate c with
  | Returns t => Ok t
  | Raises e => Raise (kind e)
  end.

(** A standard output in UTF-8: it refuses the lines that hold a
    surrogate code point (the message, which also names the code point
    and its position, is abridged). *)
Definition is_surrogate (c : N) : bool := (55296 <=? c) && (c <=? 57343).

Definition utf8_stdout (line : str) : option Failure :=
  if existsb is_surrogate line
  then Some {| kind := ValueError;
               message := u "'utf-8' codec can't encode character: surrogates not allowed" |}
  else None.

(** A host for the examples: a model that ends with [reply], a
    standard output in UTF-8, no limit reached; the messages and the
    texts of floats, which the examples do not show, are left empty. *)
Definition utf8_host (reply : outcome str) : Host :=
  {| unicode_decimal := arabic_indic;
     generate_content := fun _ => reply;
     stdout := utf8_stdout;
     decode_error_message := fun _ => [];
     float_repr := fun _ => [];
     decoder_limit := fun _ => None |}.

(** The first world. *)
Definition no_effects : World := {| calls := []; printed := [] |}.

(** [str(v)] for a value that is neither a list nor a dict, as line
    122 formats it. *)
Inductive scalar_str (float_repr : spec_float -> str) : json -> str -> Prop :=
  | str_null : scalar_str float_repr JNull (u "None")
  | str_bool (b : bool) :
      scalar_str float_repr (JBool b) (if b then u "True" else u "False")
  | str_int (z : Z) :
      (length (decimal (Z.abs z)) <= 4300)%nat ->
      scalar_str float_repr (JInt z) (decimal z)
  | str_float (f : spec_float) : scalar_str float_repr (JFloat f) (float_repr f)
  | str_str (s : str) : scalar_str float_repr (JStr s) s.

(** The world [w'] is [w] after some lines were printed, and nothing
    else. *)
Definition only_prints (w w' : World) : Prop :=
  calls w' = calls w /\ exists lines, printed w' = printed w ++ lines.

(** The world after one more line. *)
Definition with_line (w : World) (line : str) : World :=
  {| calls := calls w; printed := printed w ++ [line] |}.

(** The world after one more call of the model. *)
Definition with_call (w : World) (c : ModelCall) : World :=
  {| calls := calls w ++ [c]; printed := printed w |}.

(** * Properties *)

(** ** Python values *)

Ltac key_ne :=
  let E := fresh "E" in
  intros E; vm_compute in E; discriminate E.

Lemma py_or_truthy v d : truthy v = true -> py_or v d = v.
Proof. unfold py_or. intros ->. reflexivity. Qed.

Lemma py_or_falsy v d : truthy v = false -> py_or v d = d.
Proof. unfold py_or. intros ->. reflexivity. Qed.

(** [v or d] is a fixed point of [_ or d]. *)
Lemma py_or_idem v d : py_or (py_or v d) d = py_or v d.
Proof.
  unfold py_or. destruct (truthy v) eqn:E.
  - rewrite E. reflexivity.
  - destruct (truthy d); reflexivity.
Qed.

Lemma dict_get_lookup m k d v : m !! k = Some v -> dict_get m k d = v.
Proof. unfold dict_get. intros ->. reflexivity. Qed.


Lemma lookup_default_field key dflt m k :
  default_field key dflt m !! k =
    if decide (key = k) then Some (py_or (dict_get m key dflt) dflt) else m !! k.
Proof. unfold default_field. apply lookup_insert. Qed.

Lemma dict_get_insert_ne m k k' v d :
  k ≠ k' -> dict_get (<[k := v]> m) k' d = dict_get m k' d.
Proof. intros H. unfold dict_get. rewrite lookup_insert_ne by exact H. reflexivity. Qed.

Lemma dict_get_default_field_ne key dflt m k d :
  key ≠ k -> dict_get (default_field key dflt m) k d = dict_get m k d.
Proof. intros H. unfold default_field. apply dict_get_insert_ne, H. Qed.

(** ** The loop body on one record *)

Section Normalisation.
Variable dec : N -> option N.

Lemma normalize_record_eq m :
  normalize_record dec m =
    match coerce_duration dec m with
    | Ok d => Ok (normalized m d)
    | Raise e => Raise e
    end.
Proof.
  unfold normalize_record, normalized.
  destruct (coerce_duration dec m) as [d|e]; simpl; [|reflexivity].
  f_equal. unfold default_field at 1. f_equal.
  { rewrite !dict_get_default_field_ne by key_ne.
    rewrite dict_get_insert_ne by key_ne. reflexivity. }
  unfold default_field at 1. f_equal.
  { rewrite !dict_get_default_field_ne by key_ne.
    rewrite dict_get_insert_ne by key_ne. reflexivity. }
  unfold default_field at 1. f_equal.
  { rewrite !dict_get_default_field_ne by key_ne.
    rewrite dict_get_insert_ne by key_ne. reflexivity. }
  unfold default_field at 1. f_equal.
  rewrite dict_get_insert_ne by key_ne. reflexivity.
Qed.

Lemma normalized_duration m d : normalized m d !! u "duration" = Some (JInt d).
Proof.
  unfold normalized.
  rewrite !lookup_insert_ne by key_ne. apply lookup_insert_eq.
Qed.

Lemma normalized_meal m d :
  normalized m d !! u "meal"
  = Some (py_or (dict_get m (u "meal") (JStr (u "anytime"))) (JStr (u "anytime"))).
Proof.
  unfold normalized.
  rewrite !lookup_insert_ne by key_ne. apply lookup_insert_eq.
Qed.

Lemma normalized_frequency m d :
  normalized m d !! u "frequency"
  = Some (py_or (dict_get m (u "frequency") (JStr [])) (JStr [])).
Proof.
  unfold normalized.
  rewrite !lookup_insert_ne by key_ne. apply lookup_insert_eq.
Qed.

Lemma normalized_quantity m d :
  normalized m d !! u "quantity"
  = Some (py_or (dict_get m (u "quantity") (JStr [])) (JStr [])).
Proof.
  unfold normalized.
  rewrite !lookup_insert_ne by key_ne. apply lookup_insert_eq.
Qed.

Lemma normalized_name m d :
  normalized m d !! u "name"
  = Some (py_or (dict_get m (u "name") (JStr [])) (JStr [])).
Proof. unfold normalized. apply lookup_insert_eq. Qed.

(** Frame: the body of the loop writes the five fields only. *)
Lemma normalized_other m d k :
  k ∉ schema_keys -> normalized m d !! k = m !! k.
Proof.
  intros Hk. unfold normalized.
  rewrite !lookup_insert_ne; [reflexivity | | | | |];
    intros <-; apply Hk; unfold schema_keys; set_solver.
Qed.

(** A second pass over a normalised record changes nothing. *)
Lemma normalized_fixed m d :
  coerce_duration dec (normalized m d) = Ok d
  /\ normalized (normalized m d) d = normalized m d.
Proof.
  split.
  - unfold coerce_duration.
    rewrite (dict_get_lookup _ _ _ _ (normalized_duration m d)). reflexivity.
  - apply map_eq. intros k.
    destruct (decide (k ∈ schema_keys)) as [Hin|Hout].
    + unfold schema_keys in Hin.
      repeat (apply elem_of_cons in Hin; destruct Hin as [->|Hin]);
        [ | | | | | apply elem_of_nil in Hin; destruct Hin ].
      * rewrite !normalized_name.
        rewrite (dict_get_lookup _ _ _ _ (normalized_name m d)).
        rewrite py_or_idem. reflexivity.
      * rewrite !normalized_quantity.
        rewrite (dict_get_lookup _ _ _ _ (normalized_quantity m d)).
        rewrite py_or_idem. reflexivity.
      * rewrite !normalized_duration. reflexivity.
      * rewrite !normalized_meal.
        rewrite (dict_get_lookup _ _ _ _ (normalized_meal m d)).
        rewrite py_or_idem. reflexivity.
      * rewrite !normalized_frequency.
        rewrite (dict_get_lookup _ _ _ _ (normalized_frequency m d)).
        rewrite py_or_idem. reflexivity.
    + rewrite normalized_other by exact Hout. reflexivity.
Qed.

Lemma normalize_item_inv item item' :
  normalize_item dec item = Ok item' ->
  exists m d, item = JDict m /\ coerce_duration dec m = Ok d
              /\ item' = JDict (normalized m d).
Proof.
  destruct item; simpl; try discriminate.
  rewrite normalize_record_eq.
  destruct (coerce_duration dec m) as [d|e] eqn:E; simpl; [|discriminate].
  intros [= <-]. eauto.
Qed.

Lemma normalize_item_fixed item item' :
  normalize_item dec item = Ok item' -> normalize_item dec item' = Ok item'.
Proof.
  intros H. apply normalize_item_inv in H as (m & d & -> & Hd & ->).
  simpl. rewrite normalize_record_eq.
  destruct (normalized_fixed m d) as [-> ->]. reflexivity.
Qed.

(** ** The loop *)

Lemma normalize_loop_length items :
  length (normalize_loop dec items).1 = length items.
Proof.
  induction items as [|item rest IH]; simpl; [reflexivity|].
  destruct (normalize_item dec item) as [item'|e]; simpl; [|reflexivity].
  destruct (normalize_loop dec rest) as [rest' r]; simpl in *. congruence.
Qed.

(** Each element of the list after the loop is the element that was at
    its place, untouched or with the body of the loop applied. *)
Lemma normalize_loop_lookup items i x :
  items !! i = Some x ->
  exists x', (normalize_loop dec items).1 !! i = Some x'
             /\ (x' = x \/ normalize_item dec x = Ok x').
Proof.
  revert i. induction items as [|item rest IH]; intros i Hi; [discriminate|].
  simpl. destruct (normalize_item dec item) as [item'|e] eqn:E; simpl.
  - destruct (normalize_loop dec rest) as [rest' r] eqn:L; simpl in *.
    destruct i as [|i]; simpl in *.
    + injection Hi as <-. eauto.
    + apply IH in Hi. exact Hi.
  - exists x. split; [exact Hi | left; reflexivity].
Qed.

(** When the loop runs to its end, every element went through its
    body. *)
Lemma normalize_loop_done items items' :
  normalize_loop dec items = (items', None) ->
  Forall2 (fun x x' => normalize_item dec x = Ok x') items items'.
Proof.
  revert items'. induction items as [|item rest IH]; intros items'; simpl.
  - intros [= <-]. constructor.
  - destruct (normalize_item dec item) as [item'|e] eqn:E; [|discriminate].
    destruct (normalize_loop dec rest) as [rest' r] eqn:L.
    intros [= <- ->]. constructor; [exact E | apply IH; reflexivity].
Qed.

Lemma normalize_loop_fixed items :
  Forall (fun x => normalize_item dec x = Ok x) items ->
  normalize_loop dec items = (items, None).
Proof.
  induction 1 as [|x l Hx _ IH]; simpl; [reflexivity|].
  rewrite Hx, IH. reflexivity.
Qed.

End Normalisation.

(** ** The handler, step by step *)

Lemma process_image_upload dec gen files f :
  files_get (u "image") files = Some f ->
  filename f <> [] ->
  process_image dec gen files =
    (match process_upload dec gen f with
     | Ok (text, details) => {| status := 200; body := success_body text details |}
     | Raise _ => internal_error
     end,
     [(mimetype f, content f)]).
Proof.
  intros Hf Hn. unfold process_image. rewrite Hf.
  destruct (filename f) as [|c r]; [congruence|]. reflexivity.
Qed.

Lemma json_loads_raises s e : json_loads s = Raise e -> e = JSONDecodeError.
Proof.
  unfold json_loads.
  destruct (scan_once _ _) as [[v r]|]; [destruct (skip_ws r)|]; congruence.
Qed.

(** The inner [try] never lets an exception out. *)
Lemma parse_reply_total text :
  exists details, parse_reply text = Ok (clean_text text, details).
Proof.
  unfold parse_reply.
  destruct (json_loads (clean_text text)) as [v|e] eqn:E.
  - destruct v; eauto.
  - apply json_loads_raises in E as ->. eauto.
Qed.


(** A reply that is JSON, but neither an array nor an object, gives the
    empty list. *)
Lemma parse_reply_scalar text v :
  json_loads (clean_text text) = Ok v ->
  (forall l, v <> JList l) -> (forall m, v <> JDict m) ->
  parse_reply text = Ok (clean_text text, []).
Proof.
  unfold parse_reply. intros -> Hl Hm.
  destruct v; try reflexivity; [destruct (Hl l) | destruct (Hm m)]; reflexivity.
Qed.


(** The statuses of the handler. *)
Lemma process_image_status dec gen files :
  (process_image dec gen files).1.(status) ∈ [200; 400; 500]%Z.
Proof.
  unfold process_image.
  destruct (files_get (u "image") files) as [f|]; simpl; [|set_solver].
  destruct (filename f); simpl; [set_solver|].
  destruct (process_upload dec gen f) as [[t d]|e]; simpl; set_solver.
Qed.

(** ** Truncation of a float *)


(** ** [int] on strings *)

Lemma skip_c_space_In c s : is_c_space c = false -> In c s -> In c (skip_c_space s).
Proof.
  intros Hc. induction s as [|x r IH]; simpl; [tauto|].
  intros [->|Hin].
  - rewrite Hc. left. reflexivity.
  - destruct (is_c_space x); [apply IH, Hin | right; exact Hin].
Qed.

Lemma skip_c_space_nil_In c s :
  is_c_space c = false -> skip_c_space s = [] -> ~ In c s.
Proof.
  intros Hc Hs Hin. apply (skip_c_space_In c s Hc) in Hin.
  rewrite Hs in Hin. destruct Hin.
Qed.

Lemma int_digits_In c p acc s z rest :
  is_digit c = false -> c <> 95 ->
  int_digits p acc s = Some (z, rest) -> In c s -> In c rest.
Proof.
  intros Hd Hu. revert p acc.
  induction s as [|x r IH]; intros p acc; simpl; [tauto|].
  intros H [->|Hin].
  - rewrite Hd in H. destruct (N.eqb_spec c 95); [congruence|].
    destruct p; [discriminate|]. injection H as _ <-. left. reflexivity.
  - destruct (is_digit x); [eapply IH; eassumption|].
    destruct (x =? 95).
    + destruct p; [discriminate | eapply IH; eassumption].
    + destruct p; [discriminate|]. injection H as _ <-. right. exact Hin.
Qed.

(** The only exception of [int] on a string is [ValueError]. *)
Lemma int_of_str_raises dec s e : int_of_str dec s = Raise e -> e = ValueError.
Proof.
  unfold int_of_str.
  destruct (match skip_c_space (map (to_ascii_digit dec) s) with
            | [] => _ | _ => _ end) as [neg t1].
  destruct t1 as [|c r]; [congruence|].
  destruct (is_digit c); [|congruence].
  destruct (int_digits _ _ _) as [[z rest]|]; [|congruence].
  destruct (skip_c_space rest); [|congruence].
  destruct (_ <? _)%nat; congruence.
Qed.


(** ** Schema of a normalised record *)

(** After the body of the loop the five fields are present and
    [duration] is an integer. *)
Lemma normalized_has_fields m d k :
  k ∈ schema_keys -> is_Some (normalized m d !! k).
Proof.
  unfold schema_keys. intros Hin.
  repeat (apply elem_of_cons in Hin; destruct Hin as [->|Hin]);
    [ rewrite normalized_name | rewrite normalized_quantity
    | rewrite normalized_duration | rewrite normalized_meal
    | rewrite normalized_frequency | apply elem_of_nil in Hin; destruct Hin ];
    eauto.
Qed.

(** A field written with [_ or dflt] is a string exactly when the
    value found was falsy (the default is taken) or already a string. *)
Lemma py_or_is_str v s :
  is_str (py_or v (JStr s)) = true <-> truthy v = false \/ is_str v = true.
Proof.
  unfold py_or. destruct (truthy v) eqn:E; simpl.
  - split; [auto | intros [H|H]; [discriminate | exact H]].
  - split; auto.
Qed.

(** The example of the specification: a record with a name only. *)
Lemma normalize_name_only (dec : N -> option N) :
  normalize_loop dec [JDict {[ u "name" := JStr (u "X") ]}]
  = ([JDict (<[u "name" := JStr (u "X")]>
              (<[u "quantity" := JStr []]>
                 (<[u "duration" := JInt (-1)]>
                    (<[u "meal" := JStr (u "anytime")]>
                       {[ u "frequency" := JStr [] ]}))))],
     None).
Proof. vm_compute. reflexivity. Qed.

(** ** Claims on the normalisation loop *)

(** C1 (defect of the code).  The claim asks that after the loop the
    fields name, quantity, meal and frequency are strings whatever the
    model returned.  The loop replaces only a missing or falsy value: on
    the reply [[{"name": 5}]] the parsed record keeps the number 5 as its
    name. *)
Theorem wrong_typed_name_is_kept (dec : N -> option N) :
  parse_reply (j "[{'name': 5}]")
  = Ok (j "[{'name': 5}]", [JDict {[ u "name" := JInt 5 ]}])
  /\ normalize_loop dec [JDict {[ u "name" := JInt 5 ]}]
     = ([JDict (<[u "name" := JInt 5]>
                 (<[u "quantity" := JStr []]>
                    (<[u "duration" := JInt (-1)]>
                       (<[u "meal" := JStr (u "anytime")]>
                          {[ u "frequency" := JStr [] ]}))))],
        None)
  /\ is_str (JInt 5) = false.
Proof. repeat split; vm_compute; reflexivity. Qed.

(** C2 (defect of the code).  The claim asks for a 200 with an empty
    list whenever the reply is not of the expected shape.  A reply that
    is a JSON array whose elements are not objects, such as [[1]], goes
    through the parser; the loop then calls [get] on a number, and the
    handler answers 500. *)
Theorem list_of_non_objects_is_500 (dec : N -> option N) :
  process_image dec (fun _ => Ok (j "[1]")) sample_upload
  = (internal_error, [(u "image/png", [137; 80; 78; 71])]).
Proof. vm_compute. reflexivity. Qed.

(** The same answer comes for a record whose duration is infinite:
    [int] raises [OverflowError], which the loop does not catch. *)
Lemma infinite_duration_is_500 (dec : N -> option N) :
  process_image dec (fun _ => Ok (j "[{'duration': 1e999}]")) sample_upload
  = (internal_error, [(u "image/png", [137; 80; 78; 71])]).
Proof. vm_compute. reflexivity. Qed.

(** C3.  Normalisation is idempotent: when the loop has run over a list,
    a second run over the result returns it unchanged. *)
Theorem normalization_idempotent (dec : N -> option N) (items items' : list json) :
  normalize_loop dec items = (items', None) ->
  normalize_loop dec items' = (items', None).
Proof.
  intros H. apply normalize_loop_fixed.
  apply normalize_loop_done in H.
  induction H as [|x x' l l' Hx _ IH]; constructor.
  - eapply normalize_item_fixed, Hx.
  - exact IH.
Qed.

Lemma normalization_idempotent_witness :
  normalize_loop arabic_indic
    (normalize_loop arabic_indic (JDict <$> sample_records)).1
  = ((normalize_loop arabic_indic (JDict <$> sample_records)).1, None).
Proof.
  apply (normalization_idempotent arabic_indic (JDict <$> sample_records)).
  vm_compute. reflexivity.
Defined.

(** C8.  The loop keeps the length and the order of the list (the
    record at each place is the one that was there, untouched or with
    the body of the loop applied), and in each record every key other
    than the five fields keeps its value.  This holds for the list as the
    loop leaves it, also when it stops early. *)
Theorem normalization_frame (dec : N -> option N) (records : list (gmap str json)) :
  let after := (normalize_loop dec (JDict <$> records)).1 in
  length after = length records
  /\ forall i m, records !! i = Some m ->
       exists m', after !! i = Some (JDict m')
                  /\ (m' = m \/ exists d, coerce_duration dec m = Ok d
                                          /\ m' = normalized m d)
                  /\ forall k, k ∉ schema_keys -> m' !! k = m !! k.
Proof.
  simpl. split.
  - rewrite normalize_loop_length. apply length_fmap.
  - intros i m Hi.
    assert (Hi' : (JDict <$> records) !! i = Some (JDict m))
      by (rewrite list_lookup_fmap, Hi; reflexivity).
    destruct (normalize_loop_lookup dec _ _ _ Hi') as (x' & Hx & [->|Hn]).
    + exists m. split; [exact Hx|]. split; [left|]; reflexivity.
    + apply normalize_item_inv in Hn as (m0 & d & [= <-] & Hd & ->).
      exists (normalized m d). split; [exact Hx|]. split; [right; eauto|].
      intros k Hk. apply normalized_other, Hk.
Qed.

Lemma normalization_frame_witness :
  exists m', (normalize_loop arabic_indic (JDict <$> sample_records)).1 !! 1%nat
             = Some (JDict m')
             /\ m' !! u "note" = Some (JStr (u "after food")).
Proof.
  destruct (normalization_frame arabic_indic sample_records) as [_ H].
  destruct (H 1%nat _ eq_refl) as (m' & Hl & _ & Hf).
  exists m'. split; [exact Hl|].
  rewrite Hf; [reflexivity|].
  unfold schema_keys. intros Hin.
  repeat (apply elem_of_cons in Hin; destruct Hin as [Hin|Hin];
          [vm_compute in Hin; discriminate Hin|]).
  apply elem_of_nil in Hin. exact Hin.
Defined.

(** ** Claims on the handler *)

(** C7.  Without an [image] field the handler answers 400 with the
    message "No image file provided" and does not call the model. *)
Theorem missing_image_field (dec : N -> option N) (gen : ModelCall -> res str) (files : Files) :
  files_get (u "image") files = None ->
  process_image dec gen files
  = ({| status := 400; body := error_body "No image file provided" |}, []).
Proof. intros H. unfold process_image. rewrite H. reflexivity. Qed.

Lemma missing_image_field_witness :
  process_image arabic_indic (fun _ => Ok (j "[]"))
    [(u "photo", {| filename := u "rx.png"; mimetype := u "image/png"; content := [] |})]
  = ({| status := 400; body := error_body "No image file provided" |}, []).
Proof. apply missing_image_field. vm_compute. reflexivity. Defined.

(** C6.  When the cleaned text parses to a single JSON object, the list
    [medicine_details] is that object alone; it is then normalised, and
    the reply carries exactly that one record. *)
Theorem single_object_is_wrapped (dec : N -> option N) (gen : ModelCall -> res str) (files : Files)
    (f : FileStorage) (raw : str) (m : gmap str json) :
  json_loads (clean_text (strip raw)) = Ok (JDict m) ->
  parse_reply (strip raw) = Ok (clean_text (strip raw), [JDict m])
  /\ (forall d,
        files_get (u "image") files = Some f ->
        filename f <> [] ->
        gen (mimetype f, content f) = Ok raw ->
        coerce_duration dec m = Ok d ->
        (process_image dec gen files).1
        = {| status := 200;
             body := success_body (clean_text (strip raw)) [JDict (normalized m d)] |}).
Proof.
  intros H. assert (Hp : parse_reply (strip raw) = Ok (clean_text (strip raw), [JDict m])).
  { unfold parse_reply. rewrite H. reflexivity. }
  split; [exact Hp|].
  intros d Hf Hn Hg Hd.
  rewrite (process_image_upload _ _ _ f) by assumption. simpl.
  unfold process_upload. rewrite Hg. simpl. rewrite Hp. simpl.
  rewrite normalize_record_eq, Hd. reflexivity.
Qed.

Lemma single_object_is_wrapped_witness :
  parse_reply (strip (j " {'name': 'X'} "))
  = Ok (j "{'name': 'X'}", [JDict {[ u "name" := JStr (u "X") ]}]).
Proof.
  refine (proj1 (single_object_is_wrapped arabic_indic (fun _ => Ok (j " {'name': 'X'} "))
                   sample_upload
                   {| filename := u "rx.png"; mimetype := u "image/png";
                      content := [137; 80; 78; 71] |}
                   (j " {'name': 'X'} ") {[ u "name" := JStr (u "X") ]} _)).
  vm_compute. reflexivity.
Defined.

(** ** The comma cleanup *)

Lemma replace_scan_spent old new s : replace_scan old new (Some O) O s = s.
Proof. induction s as [|x r IH]; simpl; [reflexivity|]. rewrite IH. reflexivity. Qed.

Lemma drop_commas_cons c x r :
  drop_commas c (x :: r)
  = if (x =? 44) && head_is c r then drop_commas c r else x :: drop_commas c r.
Proof. reflexivity. Qed.

Lemma drop_commas_closer c r : c <> 44 -> drop_commas c (c :: r) = c :: drop_commas c r.
Proof.
  intros Hc. simpl. destruct (N.eqb_spec c 44); [contradiction|]. reflexivity.
Qed.

Lemma replace_scan_drop_commas c s :
  c <> 44 -> replace_scan [44; c] [c] None O s = drop_commas c s.
Proof.
  intros Hc. induction s as [|x r IH]; [reflexivity|].
  cbn [replace_scan drop_commas may_replace andb spend length Nat.pred].
  unfold startswith. cbn [strip_prefix].
  rewrite (N.eqb_sym 44 x).
  destruct (N.eqb_spec x 44) as [->|Hx]; cbn [andb]; [|rewrite IH; reflexivity].
  destruct r as [|y r']; cbn [head_is]; [reflexivity|].
  rewrite (N.eqb_sym c y).
  destruct (N.eqb_spec y c) as [->|Hy]; [|rewrite IH; reflexivity].
  rewrite <- IH. cbn [replace_scan may_replace andb app].
  unfold startswith. cbn [strip_prefix].
  destruct (N.eqb_spec 44 c); [congruence|]. reflexivity.
Qed.

(** The two replacements of line 111 delete the commas standing
    immediately before a bracket, then those standing immediately before
    a brace. *)
Lemma replace_bracket s : replace (u ",]") (u "]") None s = drop_commas 93 s.
Proof. apply (replace_scan_drop_commas 93). discriminate. Qed.

Lemma replace_brace s : replace (u ",}") (u "}") None s = drop_commas 125 s.
Proof. apply (replace_scan_drop_commas 125). discriminate. Qed.

Lemma cleanup_commas_eq s :
  cleanup_commas s = strip (drop_commas 125 (drop_commas 93 s)).
Proof. unfold cleanup_commas. rewrite replace_bracket, replace_brace. reflexivity. Qed.


Lemma head_is_drop_commas b c s :
  c <> 44 ->
  head_is b (drop_commas c s) = true ->
  head_is b s = true \/ (b = c /\ exists r, s = 44 :: c :: r).
Proof.
  intros Hc. destruct s as [|y r]; [discriminate|].
  cbn [drop_commas]. destruct (N.eqb_spec y 44) as [->|Hy]; cbn [andb].
  - destruct r as [|z r']; cbn [head_is]; [auto|].
    destruct (N.eqb_spec z c) as [->|Hz]; [|auto].
    rewrite drop_commas_closer by exact Hc. cbn [head_is].
    intros H. apply N.eqb_eq in H. subst b. right. eauto.
  - auto.
Qed.

Lemma adjacent_cons a b x s : adjacent a b s = true -> adjacent a b (x :: s) = true.
Proof. intros H. cbn [adjacent]. rewrite H. apply orb_true_r. Qed.

Lemma adjacent_drop_commas a b c s :
  c <> 44 ->
  adjacent a b (drop_commas c s) = true ->
  adjacent a b s = true \/ (b = c /\ adjacent a 44 s = true).
Proof.
  intros Hc. induction s as [|x r IH]; [discriminate|].
  cbn [drop_commas].
  destruct ((x =? 44) && head_is c r) eqn:E.
  - intros H. destruct (IH H) as [H1|[-> H1]]; [left|right; split; [reflexivity|]];
      apply adjacent_cons, H1.
  - cbn [adjacent]. intros H. apply orb_true_iff in H as [H|H].
    + apply andb_true_iff in H as [Hx Hh].
      destruct (head_is_drop_commas _ _ _ Hc Hh) as [H1|[-> [r' ->]]].
      * left. cbn [adjacent]. rewrite Hx, H1. reflexivity.
      * right. split; [reflexivity|]. cbn [adjacent head_is]. rewrite Hx. reflexivity.
    + destruct (IH H) as [H1|[-> H1]]; [left|right; split; [reflexivity|]];
        apply adjacent_cons, H1.
Qed.

(** After a pass, a comma stands before [c] only where the text had two
    commas in a row. *)
Lemma adjacent_comma_dropped c s :
  c <> 44 ->
  adjacent 44 c (drop_commas c s) = true -> adjacent 44 44 s = true.
Proof.
  intros Hc. induction s as [|x r IH]; [discriminate|].
  cbn [drop_commas].
  destruct ((x =? 44) && head_is c r) eqn:E.
  - intros H. apply adjacent_cons, IH, H.
  - cbn [adjacent]. intros H. apply orb_true_iff in H as [H|H].
    + apply andb_true_iff in H as [Hx Hh]. rewrite Hx in E. cbn [andb] in E.
      destruct (head_is_drop_commas _ _ _ Hc Hh) as [H1|[_ [r' ->]]]; [congruence|].
      rewrite Hx. reflexivity.
    + apply orb_true_iff. right. apply IH, H.
Qed.

Lemma adjacent_app a b x s y :
  adjacent a b s = true -> adjacent a b (x ++ s ++ y) = true.
Proof.
  intros H. induction x as [|c x IH]; [|apply adjacent_cons, IH].
  cbn [app]. induction s as [|c s IH]; [discriminate|].
  cbn [app adjacent] in *. apply orb_true_iff in H as [H|H].
  - apply andb_true_iff in H as [Hc Hh]. rewrite Hc.
    destruct s; [discriminate|]. cbn [app head_is] in *. rewrite Hh. reflexivity.
  - rewrite (IH H). apply orb_true_r.
Qed.

Lemma adjacent_infix a b s t :
  infix_of s t -> adjacent a b s = true -> adjacent a b t = true.
Proof. intros (x & y & ->). apply adjacent_app. Qed.

(** ** [strip] keeps a contiguous part of the text *)

Lemma infix_of_refl s : infix_of s s.
Proof. exists [], []. rewrite app_nil_r. reflexivity. Qed.

Lemma infix_of_trans a b c : infix_of a b -> infix_of b c -> infix_of a c.
Proof.
  intros (x & y & ->) (x' & y' & ->). exists (x' ++ x), (y ++ y').
  rewrite <- !app_assoc. reflexivity.
Qed.

Lemma lstrip_suffix s : exists w, s = w ++ lstrip s /\ forallb is_space w = true.
Proof.
  induction s as [|c r (w & Hw & Hs)]; [exists []; auto|].
  cbn [lstrip]. destruct (is_space c) eqn:E.
  - exists (c :: w). cbn [app forallb]. rewrite <- Hw, E, Hs. auto.
  - exists []. auto.
Qed.

Lemma rstrip_prefix s : exists w, s = rstrip s ++ w /\ forallb is_space w = true.
Proof.
  unfold rstrip. destruct (lstrip_suffix (rev s)) as (w & Hw & Hs).
  exists (rev w). split.
  - rewrite <- rev_app_distr, <- Hw, rev_involutive. reflexivity.
  - rewrite forallb_forall in *. intros x Hx. apply Hs, in_rev, Hx.
Qed.

Lemma strip_infix s : infix_of (strip s) s.
Proof.
  unfold strip. destruct (lstrip_suffix s) as (w & Hw & _).
  destruct (rstrip_prefix (lstrip s)) as (w' & Hw' & _).
  exists w, w'. rewrite <- Hw'. exact Hw.
Qed.

(** ** Fence removal keeps a contiguous part of the text *)

Lemma strip_prefix_app p s r : strip_prefix p s = Some r -> s = p ++ r.
Proof.
  revert s. induction p as [|a p IH]; intros s; cbn [strip_prefix].
  - intros [= ->]. reflexivity.
  - destruct s as [|b s]; [discriminate|].
    destruct (N.eqb_spec a b) as [->|]; [|discriminate].
    intros H. rewrite (IH _ H). reflexivity.
Qed.

Lemma strip_prefix_exact p r : strip_prefix p (p ++ r) = Some r.
Proof.
  induction p as [|a p IH]; [reflexivity|].
  cbn [app strip_prefix]. rewrite N.eqb_refl. exact IH.
Qed.

Lemma startswith_app p r : startswith p (p ++ r) = true.
Proof. unfold startswith. rewrite strip_prefix_exact. reflexivity. Qed.

Lemma replace_scan_skip old new cnt k r :
  replace_scan old new cnt (length k) (k ++ r) = replace_scan old new cnt O r.
Proof.
  induction k as [|x k IH]; [destruct r; reflexivity|].
  cbn [length app replace_scan]. exact IH.
Qed.

(** Replacing the first occurrence of a prefix removes it. *)
Lemma replace_first_prefix a old new r :
  replace (a :: old) new (Some 1%nat) ((a :: old) ++ r) = new ++ r.
Proof.
  unfold replace. cbn [app replace_scan may_replace andb].
  change (a :: old ++ r) with ((a :: old) ++ r). rewrite startswith_app.
  cbn [spend Nat.pred length]. rewrite replace_scan_skip, replace_scan_spent.
  reflexivity.
Qed.

Lemma drop_last_infix n s : infix_of (drop_last n s) s.
Proof.
  unfold drop_last. exists [], (drop (length s - n) s).
  cbn [app]. symmetry. apply take_drop.
Qed.

Lemma strip_fences_infix text : infix_of (strip_fences text) text.
Proof.
  unfold strip_fences.
  set (t1 := if startswith (u "```json") text then _ else text).
  assert (H1 : infix_of t1 text).
  { subst t1. unfold startswith.
    destruct (strip_prefix (u "```json") text) as [r|] eqn:E; [|apply infix_of_refl].
    apply strip_prefix_app in E. rewrite E at 1.
    change (u "```json") with (96 :: u "``json").
    rewrite replace_first_prefix. cbn [app].
    eapply infix_of_trans; [apply strip_infix|].
    exists (u "```json"), []. rewrite app_nil_r. exact E. }
  destruct (endswith (u "```") t1); [|exact H1].
  eapply infix_of_trans; [apply strip_infix|].
  eapply infix_of_trans; [apply drop_last_infix|exact H1].
Qed.

(** ** Claims on the comma cleanup *)

(** C5 as stated does not hold: after the cleanup a comma can still
    stand immediately before a closer, because each replacement is a
    single pass. *)
Lemma double_comma_survives :
  clean_text (u "[1,,]") = u "[1,]"
  /\ comma_before_closer (clean_text (u "[1,,]")) = true.
Proof. split; vm_compute; reflexivity. Qed.

(** C5, amended.  The cleanup deletes every comma that stands
    immediately before a bracket, then every comma that stands
    immediately before a brace; when the text has no two commas in a
    row, the cleaned text has no comma immediately before a bracket or
    a brace. *)
Theorem cleanup_removes_trailing_commas (text : str) :
  clean_text text = strip (drop_commas 125 (drop_commas 93 (strip_fences text)))
  /\ (adjacent 44 44 text = false -> comma_before_closer (clean_text text) = false).
Proof.
  unfold clean_text. rewrite cleanup_commas_eq.
  split; [reflexivity|]. intros Hnn.
  set (s0 := strip_fences text).
  assert (H0 : adjacent 44 44 s0 = false).
  { destruct (adjacent 44 44 s0) eqn:E; [|reflexivity].
    rewrite <- Hnn. symmetry.
    eapply adjacent_infix; [apply strip_fences_infix | exact E]. }
  unfold comma_before_closer. apply orb_false_iff. split.
  - destruct (adjacent 44 93 (strip _)) eqn:E; [|reflexivity].
    apply (adjacent_infix _ _ _ _ (strip_infix _)) in E.
    apply adjacent_drop_commas in E as [E|[E _]]; [|discriminate|discriminate].
    apply adjacent_comma_dropped in E; [congruence|discriminate].
  - destruct (adjacent 44 125 (strip _)) eqn:E; [|reflexivity].
    apply (adjacent_infix _ _ _ _ (strip_infix _)) in E.
    apply adjacent_comma_dropped in E; [|discriminate].
    apply adjacent_drop_commas in E as [E|[E _]]; [congruence|discriminate|discriminate].
Qed.

Lemma cleanup_removes_trailing_commas_witness :
  comma_before_closer (clean_text (j "[{'name': 'X',},]")) = false.
Proof.
  apply (proj2 (cleanup_removes_trailing_commas (j "[{'name': 'X',},]"))).
  vm_compute. reflexivity.
Defined.


(** ** Texts that [json.loads] cannot tell apart *)

(** Solves goals on the class of a code point from boolean facts on it. *)
Ltac char_facts :=
  unfold removable, is_closer, is_space, is_json_ws, is_digit, head_is in *;
  cbn [forallb] in *;
  repeat (progress rewrite ?orb_true_iff, ?orb_false_iff, ?andb_true_iff,
            ?andb_false_iff, ?N.eqb_eq, ?N.eqb_neq, ?N.leb_le, ?N.leb_gt,
            ?N.ltb_lt, ?N.ltb_ge in *);
  first [lia | exfalso; lia].

Section Similar.

(** Whether deleted commas are allowed. *)
Variable drops : bool.

Local Abbreviation sim := (similar drops).

Lemma sim_refl s : sim s s.
Proof. induction s; [apply sim_end; reflexivity | apply sim_keep; assumption]. Qed.

Lemma sim_nil_l t : sim [] t -> t = [].
Proof. inversion 1; reflexivity. Qed.

(** A code point that is not removable is kept. *)
Lemma sim_cons_l x s t :
  sim (x :: s) t -> removable x = false -> exists t', t = x :: t' /\ sim s t'.
Proof.
  intros H Hx. inversion H; subst.
  - char_facts.
  - eauto.
  - char_facts.
Qed.

(** A code point that is no closer was there before. *)
Lemma sim_cons_r s y t :
  sim s (y :: t) -> is_closer y = false -> exists s', s = y :: s' /\ sim s' t.
Proof.
  intros H Hy. inversion H; subst.
  - eauto.
  - congruence.
Qed.

(** A steady test gives the same answer on the heads of two similar
    texts. *)
Lemma sim_head_test p s t : steady p -> sim s t -> head_test p t = head_test p s.
Proof.
  intros Hp H. inversion H; subst; cbn [head_test].
  - destruct s as [|x w]; [reflexivity|]. cbn [head_test forallb] in *.
    destruct (p x) eqn:E; [|reflexivity].
    apply Hp in E as [E _]. char_facts.
  - reflexivity.
  - destruct (p c) eqn:E.
    + apply Hp in E as [_ E]. congruence.
    + destruct (p 44) eqn:E'; [|reflexivity]. apply Hp in E' as [E' _]. discriminate.
Qed.

Lemma forallb_skip_ws w : forallb is_space w = true -> forallb is_space (skip_ws w) = true.
Proof.
  induction w as [|x w IH]; [reflexivity|]. cbn [forallb skip_ws].
  intros H. destruct (is_json_ws x); [|exact H].
  apply andb_true_iff in H as [_ H]. apply IH, H.
Qed.

Lemma sim_skip_ws s t : sim s t -> sim (skip_ws s) (skip_ws t).
Proof.
  induction 1 as [w Hw|x s t H IH|c s t Hb Hc H IH].
  - apply sim_end, forallb_skip_ws, Hw.
  - cbn [skip_ws]. destruct (is_json_ws x); [exact IH | apply sim_keep, H].
  - assert (Hw : is_json_ws c = false) by char_facts.
    cbn [skip_ws]. rewrite Hw. cbn. apply sim_drop; assumption.
Qed.

Lemma scan_items_spaces w : forallb is_space w = true -> scan_items w = None.
Proof.
  induction w as [|x w IH]; [reflexivity|]. cbn [forallb]. intros H.
  apply andb_true_iff in H as [Hx Hw]. cbn [scan_items].
  destruct (x =? 34) eqn:E1; [char_facts|].
  destruct (x =? 92) eqn:E2; [char_facts|].
  destruct (x <? 32); [reflexivity|]. rewrite (IH Hw). reflexivity.
Qed.

Lemma hex_val_plain x n : hex_val x = Some n -> removable x = false /\ is_closer x = false.
Proof.
  unfold hex_val.
  destruct (is_digit x) eqn:E1; [intros _; split; char_facts|].
  destruct ((97 <=? x) && (x <=? 102)) eqn:E2; [intros _; split; char_facts|].
  destruct ((65 <=? x) && (x <=? 70)) eqn:E3; [intros _; split; char_facts|].
  discriminate.
Qed.

Lemma hex4_plain a b c d n :
  hex4 a b c d = Some n ->
  removable a = false /\ removable b = false /\ removable c = false /\ removable d = false.
Proof.
  unfold hex4.
  destruct (hex_val a) eqn:Ea; [|discriminate].
  destruct (hex_val b) eqn:Eb; [|discriminate].
  destruct (hex_val c) eqn:Ec; [|discriminate].
  destruct (hex_val d) eqn:Ed; [|discriminate].
  intros _. repeat split; eapply hex_val_plain; eassumption.
Qed.

Lemma simple_escape_plain e x : simple_escape e = Some x -> removable e = false.
Proof.
  unfold simple_escape.
  repeat match goal with
    | |- context [if ?b then _ else _] => destruct b eqn:?; [intros _; char_facts|]
    end.
  discriminate.
Qed.

Lemma scan_items_cons_lit x s :
  (x =? 34) = false -> (x =? 92) = false -> (x <? 32) = false ->
  scan_items (x :: s)
  = match scan_items s with
    | Some (items, rest) => Some (Lit x :: items, rest)
    | None => None
    end.
Proof. intros H1 H2 H3. cbn [scan_items]. rewrite H1, H2, H3. reflexivity. Qed.

Lemma sim_scan_items s t items r :
  sim s t -> scan_items s = Some (items, r) ->
  exists items' r',
    scan_items t = Some (items', r') /\ sim r r' /\ (drops = false -> items' = items).
Proof.
  remember (length s) as n eqn:Hn. revert s t items r Hn.
  induction n as [n IH] using lt_wf_ind. intros s t items r Hn Hsim H. subst n.
  inversion Hsim as [w Hw|x s1 t1 Hs1|c s1 t1 Hb Hc Hs1]; subst.
  - rewrite (scan_items_spaces _ Hw) in H. discriminate.
  - cbn [scan_items] in *.
    destruct (x =? 34) eqn:E1.
    { injection H as <- <-. eauto 6. }
    destruct (x =? 92) eqn:E2.
    { destruct s1 as [|e s2]; [discriminate|].
      destruct (e =? 117) eqn:E3.
      - apply sim_cons_l in Hs1 as (t2 & -> & Hs2); [|char_facts].
        rewrite E3.
        destruct s2 as [|a [|b [|c2 [|d r2]]]]; try discriminate.
        destruct (hex4 a b c2 d) as [n|] eqn:Hh; [|discriminate].
        destruct (hex4_plain _ _ _ _ _ Hh) as (Ha & Hb & Hc & Hd).
        apply sim_cons_l in Hs2 as (t3 & -> & Hs3); [|exact Ha].
        apply sim_cons_l in Hs3 as (t4 & -> & Hs4); [|exact Hb].
        apply sim_cons_l in Hs4 as (t5 & -> & Hs5); [|exact Hc].
        apply sim_cons_l in Hs5 as (t6 & -> & Hs6); [|exact Hd].
        rewrite Hh.
        destruct (scan_items r2) as [[items2 rest]|] eqn:Hr; [|discriminate].
        injection H as <- <-.
        destruct (IH (length r2) ltac:(cbn [length]; lia) _ _ _ _ eq_refl Hs6 Hr)
          as (items' & r' & -> & Hr' & Hv).
        do 2 eexists. split; [reflexivity|]. split; [exact Hr'|].
        intros Hf. rewrite (Hv Hf). reflexivity.
      - destruct (simple_escape e) as [x'|] eqn:He; [|discriminate].
        apply sim_cons_l in Hs1 as (t2 & -> & Hs2);
          [|eapply simple_escape_plain; eassumption].
        rewrite E3, He.
        destruct (scan_items s2) as [[items2 rest]|] eqn:Hr; [|discriminate].
        injection H as <- <-.
        destruct (IH (length s2) ltac:(cbn [length]; lia) _ _ _ _ eq_refl Hs2 Hr)
          as (items' & r' & -> & Hr' & Hv).
        do 2 eexists. split; [reflexivity|]. split; [exact Hr'|].
        intros Hf. rewrite (Hv Hf). reflexivity. }
    destruct (x <? 32); [discriminate|].
    destruct (scan_items s1) as [[items1 rest]|] eqn:Hr; [|discriminate].
    injection H as <- <-.
    destruct (IH (length s1) ltac:(cbn [length]; lia) _ _ _ _ eq_refl Hs1 Hr)
      as (items' & r' & -> & Hr' & Hv).
    do 2 eexists. split; [reflexivity|]. split; [exact Hr'|].
    intros Hf. rewrite (Hv Hf). reflexivity.
  - assert (E1 : (c =? 34) = false) by char_facts.
    assert (E2 : (c =? 92) = false) by char_facts.
    assert (E3 : (c <? 32) = false) by char_facts.
    rewrite scan_items_cons_lit in H by reflexivity.
    rewrite scan_items_cons_lit in H by assumption.
    rewrite scan_items_cons_lit by assumption.
    destruct (scan_items s1) as [[items1 rest]|] eqn:Hr; [|discriminate].
    injection H as <- <-.
    destruct (IH (length s1) ltac:(cbn [length]; lia) _ _ _ _ eq_refl Hs1 Hr)
      as (items' & r' & -> & Hr' & _).
    do 2 eexists. split; [reflexivity|]. split; [exact Hr'|]. congruence.
Qed.

Lemma sim_scanstring s t v r :
  sim s t -> scanstring s = Some (v, r) ->
  exists v' r', scanstring t = Some (v', r') /\ sim r r' /\ (drops = false -> v' = v).
Proof.
  unfold scanstring. intros Hsim H.
  destruct (scan_items s) as [[items rest]|] eqn:E; [|discriminate].
  injection H as <- <-.
  destruct (sim_scan_items _ _ _ _ Hsim E) as (items' & r' & -> & Hr & Hv).
  do 2 eexists. split; [reflexivity|]. split; [exact Hr|].
  intros Hf. rewrite (Hv Hf). reflexivity.
Qed.

(** Numbers *)

Lemma take_digits_cons x s :
  take_digits (x :: s)
  = if is_digit x then (x :: (take_digits s).1, (take_digits s).2) else ([], x :: s).
Proof. cbn [take_digits]. destruct (is_digit x), (take_digits s); reflexivity. Qed.

Lemma sim_take_digits s t ds r :
  sim s t -> take_digits s = (ds, r) ->
  exists r', take_digits t = (ds, r') /\ sim r r'.
Proof.
  intros H. revert ds r.
  induction H as [w Hw|x s t H IH|c s t Hb Hc H IH]; intros ds r.
  - destruct w as [|x w]; cbn [take_digits].
    + intros [= <- <-]. exists []. split; [reflexivity | apply sim_end; reflexivity].
    + assert (E : is_digit x = false) by char_facts. rewrite E.
      intros [= <- <-]. exists []. split; [reflexivity | apply sim_end, Hw].
  - rewrite !take_digits_cons. destruct (is_digit x).
    + destruct (take_digits s) as [ds0 r0]. cbn [fst snd]. intros [= <- <-].
      destruct (IH _ _ eq_refl) as (r' & -> & Hr). cbn [fst snd]. eauto.
    + intros [= <- <-]. exists (x :: t). split; [reflexivity | apply sim_keep, H].
  - rewrite !take_digits_cons. assert (E : is_digit c = false) by char_facts.
    rewrite E. cbn. intros [= <- <-]. exists (c :: t).
    split; [reflexivity | apply sim_drop; assumption].
Qed.

Lemma sim_int_part s t ids r :
  sim s t -> int_part s = Some (ids, r) ->
  exists r', int_part t = Some (ids, r') /\ sim r r'.
Proof.
  intros H. destruct s as [|x s]; [discriminate|]. cbn [int_part].
  destruct (x =? 48) eqn:E0.
  - intros [= <- <-]. apply sim_cons_l in H as (t' & -> & H); [|char_facts].
    cbn [int_part]. rewrite E0. eauto.
  - destruct (is_digit x) eqn:E1; [|discriminate].
    apply sim_cons_l in H as (t' & -> & H); [|char_facts].
    cbn [int_part]. rewrite E0, E1.
    destruct (take_digits s) as [ds rest] eqn:Ed. intros [= <- <-].
    destruct (sim_take_digits _ _ _ _ H Ed) as (r' & -> & Hr). eauto.
Qed.

Lemma sim_frac_part s t fds r :
  sim s t -> frac_part s = (fds, r) ->
  exists r', frac_part t = (fds, r') /\ sim r r'.
Proof.
  intros H.
  assert (Hplain : forall s t, sim s t ->
            (match s with
             | p :: d :: _ => (p =? 46) && is_digit d
             | _ => false
             end = false) ->
            frac_part s = ([], s) /\ frac_part t = ([], t)).
  { clear. intros s t H E. split.
    - destruct s as [|p [|d r]]; try reflexivity. cbn [frac_part]. rewrite E. reflexivity.
    - destruct t as [|p [|d r]]; try reflexivity. cbn [frac_part].
      destruct ((p =? 46) && is_digit d) eqn:E'; [exfalso|reflexivity].
      apply andb_true_iff in E' as [Ep Ed].
      apply sim_cons_r in H as (s1 & -> & H); [|char_facts].
      apply sim_cons_r in H as (s2 & -> & H); [|char_facts].
      rewrite Ep, Ed in E. discriminate. }
  destruct (match s with
            | p :: d :: _ => (p =? 46) && is_digit d
            | _ => false
            end) eqn:E.
  - destruct s as [|p [|d s2]]; try discriminate.
    cbn [frac_part]. rewrite E. apply andb_true_iff in E as [Ep Ed].
    apply sim_cons_l in H as (t1 & -> & H); [|char_facts].
    pose proof H as H'.
    apply sim_cons_l in H' as (t2 & -> & _); [|char_facts].
    cbn [frac_part]. rewrite Ep, Ed. cbn [andb].
    apply sim_take_digits, H.
  - destruct (Hplain s t H E) as [-> ->]. intros [= <- <-]. eauto.
Qed.

Lemma sim_exp_part s t ex r :
  sim s t -> exp_part s = (ex, r) ->
  exists r', exp_part t = (ex, r') /\ sim r r'.
Proof.
  intros H. destruct s as [|e s1].
  - apply sim_nil_l in H as ->. cbn. intros [= <- <-]. exists [].
    split; [reflexivity | apply sim_end; reflexivity].
  - cbn [exp_part]. destruct ((e =? 101) || (e =? 69)) eqn:Ee.
    + pose proof H as H0.
      apply sim_cons_l in H as (t1 & -> & H); [|char_facts].
      cbn [exp_part]. rewrite Ee.
      assert (Hsg : forall sg r1,
                 match s1 with
                 | [] => (false, s1)
                 | c :: t => if c =? 45 then (true, t)
                             else if c =? 43 then (false, t) else (false, s1)
                 end = (sg, r1) ->
                 exists r1',
                   match t1 with
                   | [] => (false, t1)
                   | c :: t => if c =? 45 then (true, t)
                               else if c =? 43 then (false, t) else (false, t1)
                   end = (sg, r1') /\ sim r1 r1').
      { intros sg r1. destruct s1 as [|c s2].
        - apply sim_nil_l in H as ->. intros [= <- <-]. exists [].
          split; [reflexivity | apply sim_end; reflexivity].
        - destruct (c =? 45) eqn:E1.
          + intros [= <- <-]. apply sim_cons_l in H as (t2 & -> & H); [|char_facts].
            rewrite E1. eauto.
          + destruct (c =? 43) eqn:E2.
            * intros [= <- <-]. apply sim_cons_l in H as (t2 & -> & H); [|char_facts].
              rewrite E1, E2. eauto.
            * intros [= <- <-]. exists t1. split; [|exact H].
              destruct t1 as [|c' t2]; [reflexivity|].
              destruct (c' =? 45) eqn:E1'.
              { apply sim_cons_r in H as (s3 & [= -> ->] & _); [|char_facts]. congruence. }
              destruct (c' =? 43) eqn:E2'; [|reflexivity].
              apply sim_cons_r in H as (s3 & [= -> ->] & _); [|char_facts]. congruence. }
      destruct (match s1 with [] => _ | _ => _ end) as [sg r1] eqn:Es.
      destruct (Hsg _ _ eq_refl) as (r1' & -> & Hr1).
      destruct (take_digits r1) as [ds rest] eqn:Ed.
      destruct (sim_take_digits _ _ _ _ Hr1 Ed) as (rest' & -> & Hrest).
      destruct ds; intros [= <- <-]; eauto.
    + intros [= <- <-]. exists t. split; [|exact H].
      assert (Ht : head_test is_exp_mark t = false).
      { rewrite (sim_head_test is_exp_mark _ _ ltac:(intros x Hx; unfold is_exp_mark in Hx; split; char_facts) H).
        exact Ee. }
      destruct t as [|e' t1]; [reflexivity|]. cbn [exp_part head_test] in *.
      unfold is_exp_mark in Ht. rewrite Ht. reflexivity.
Qed.

Lemma sim_match_number s t v r :
  sim s t -> match_number s = Some (v, r) ->
  exists r', match_number t = Some (v, r') /\ sim r r'.
Proof.
  intros H. unfold match_number.
  assert (Hsg : forall neg s1,
             match s with
             | [] => (false, s)
             | c :: r => if c =? 45 then (true, r) else (false, s)
             end = (neg, s1) ->
             forall ids s2, int_part s1 = Some (ids, s2) ->
             exists t1,
               match t with
               | [] => (false, t)
               | c :: r => if c =? 45 then (true, r) else (false, t)
               end = (neg, t1) /\ sim s1 t1).
  { intros neg s1. destruct s as [|c s0].
    - intros [= <- <-]. discriminate.
    - destruct (c =? 45) eqn:E.
      + intros [= <- <-] _ _ _. apply sim_cons_l in H as (t1 & -> & H); [|char_facts].
        rewrite E. eauto.
      + intros [= <- <-] ids s2 Hi. cbn [int_part] in Hi.
        assert (Hc : removable c = false).
        { destruct (c =? 48) eqn:E0; [char_facts|].
          destruct (is_digit c) eqn:E1; [char_facts|discriminate]. }
        apply sim_cons_l in H as (t1 & -> & H); [|exact Hc].
        rewrite E. exists (c :: t1). split; [reflexivity | apply sim_keep, H]. }
  destruct (match s with [] => _ | _ => _ end) as [neg s1] eqn:Es.
  destruct (int_part s1) as [[ids s2]|] eqn:Ei; [|discriminate].
  destruct (Hsg _ _ eq_refl _ _ Ei) as (t1 & -> & H1).
  destruct (sim_int_part _ _ _ _ H1 Ei) as (t2 & -> & H2).
  destruct (frac_part s2) as [fds s3] eqn:Ef.
  destruct (sim_frac_part _ _ _ _ H2 Ef) as (t3 & -> & H3).
  destruct (exp_part s3) as [ex s4] eqn:Ex.
  destruct (sim_exp_part _ _ _ _ H3 Ex) as (t4 & -> & H4).
  destruct fds, ex; intros [= <- <-]; eauto.
Qed.

Lemma sim_strip_prefix p s t r :
  Forall (fun x => removable x = false) p ->
  sim s t -> strip_prefix p s = Some r ->
  exists r', strip_prefix p t = Some r' /\ sim r r'.
Proof.
  intros Hp. revert s t. induction Hp as [|a p Ha _ IH]; intros s t H; cbn [strip_prefix].
  - intros [= <-]. eauto.
  - destruct s as [|b s]; [discriminate|].
    destruct (N.eqb_spec a b) as [<-|]; [|discriminate].
    apply sim_cons_l in H as (t' & -> & H); [|exact Ha].
    rewrite N.eqb_refl. apply IH, H.
Qed.

(** Values *)

Lemma match_number_head x s v r :
  match_number (x :: s) = Some (v, r) -> x = 45 \/ is_digit x = true.
Proof.
  unfold match_number. destruct (N.eqb_spec x 45) as [->|Hx]; [auto|].
  cbn [int_part]. destruct (N.eqb_spec x 48) as [->|H0]; [auto|].
  destruct (is_digit x); [auto|discriminate].
Qed.

Lemma strip_prefix_nil p : p <> [] -> strip_prefix p [] = None.
Proof. destruct p; [congruence|reflexivity]. Qed.

(** A value starts with neither a removable code point nor a closer. *)
Lemma scan_once_head fuel x s v r :
  scan_once fuel (x :: s) = Some (v, r) ->
  removable x = false /\ is_closer x = false.
Proof.
  destruct fuel as [|n]; [discriminate|]. cbn [scan_once].
  repeat match goal with
    | |- context [if ?c =? ?k then _ else _] =>
        destruct (c =? k) eqn:?; [intros _; split; char_facts|]
    end.
  intros H. apply match_number_head in H. split; char_facts.
Qed.

Lemma scan_once_nil fuel : scan_once fuel [] = None.
Proof. destruct fuel; reflexivity. Qed.

Lemma parse_array_head fuel x s vs r :
  parse_array fuel (x :: s) = Some (vs, r) ->
  removable x = false /\ is_closer x = false.
Proof.
  destruct fuel as [|n]; [discriminate|]. cbn [parse_array].
  destruct (scan_once n (x :: s)) as [[v r1]|] eqn:E; [|discriminate].
  intros _. eapply scan_once_head, E.
Qed.

Lemma parse_array_nil fuel : parse_array fuel [] = None.
Proof. destruct fuel as [|n]; [reflexivity|]. cbn [parse_array]. rewrite scan_once_nil. reflexivity. Qed.

Lemma parse_members_head fuel x s kvs r :
  parse_members fuel (x :: s) = Some (kvs, r) -> x = 34.
Proof.
  destruct fuel as [|n]; [discriminate|]. cbn [parse_members].
  destruct (N.eqb_spec x 34); [auto|discriminate].
Qed.

Lemma parse_members_nil fuel : parse_members fuel [] = None.
Proof. destruct fuel; reflexivity. Qed.

Lemma sim_strip_prefix_r p s t r' :
  Forall (fun x => is_closer x = false) p ->
  sim s t -> strip_prefix p t = Some r' ->
  exists r, strip_prefix p s = Some r /\ sim r r'.
Proof.
  intros Hp. revert s t. induction Hp as [|a p Ha _ IH]; intros s t H; cbn [strip_prefix].
  - intros [= <-]. eauto.
  - destruct t as [|b t]; [discriminate|].
    destruct (N.eqb_spec a b) as [<-|]; [|discriminate].
    apply sim_cons_r in H as (s' & -> & H); [|exact Ha].
    rewrite N.eqb_refl. apply IH, H.
Qed.

Ltac plain_word := repeat constructor.

(** Closes a simulation goal: the same scan on the other text, similar
    rests, and equal values when no comma is deleted. *)
Ltac finish :=
  do 2 eexists; split; [reflexivity|]; split; [eassumption|];
  let Hf := fresh "Hf" in
  intros Hf;
  repeat match goal with
    | Hv : drops = false -> _ = _ |- _ => rewrite (Hv Hf); clear Hv
    end;
  reflexivity.

(** The separator after an element or a member: a comma that is kept. *)
Lemma sim_comma s t :
  sim (44 :: s) t ->
  (exists t', t = 44 :: t' /\ sim s t')
  \/ (exists c s' t', s = c :: s' /\ is_closer c = true /\ t = c :: t').
Proof.
  inversion 1; subst.
  - exfalso. char_facts.
  - left. eauto.
  - right. eauto 10.
Qed.

Lemma skip_ws_closer c s : is_closer c = true -> skip_ws (c :: s) = c :: s.
Proof.
  intros Hc. cbn [skip_ws]. assert (E : is_json_ws c = false) by char_facts.
  rewrite E. reflexivity.
Qed.

Lemma sim_scan fuel :
  (forall s t v r, sim s t -> scan_once fuel s = Some (v, r) ->
     exists v' r', scan_once fuel t = Some (v', r') /\ sim r r'
                   /\ (drops = false -> v' = v))
  /\ (forall s t vs r, sim s t -> parse_array fuel s = Some (vs, r) ->
        exists vs' r', parse_array fuel t = Some (vs', r') /\ sim r r'
                       /\ (drops = false -> vs' = vs))
  /\ (forall s t kvs r, sim s t -> parse_members fuel s = Some (kvs, r) ->
        exists kvs' r', parse_members fuel t = Some (kvs', r') /\ sim r r'
                        /\ (drops = false -> kvs' = kvs)).
Proof.
  induction fuel as [|n (IHs & IHa & IHm)]; [repeat split; discriminate|].
  repeat apply conj.
  - (* scan_once *)
    intros s t v r H Hs. destruct s as [|c s0]; [discriminate|].
    destruct (scan_once_head _ _ _ _ _ Hs) as [Hc _].
    pose proof H as Hwhole.
    apply sim_cons_l in H as (t0 & -> & H); [|exact Hc].
    cbn [scan_once] in Hs |- *.
    destruct (c =? 34).
    { destruct (scanstring s0) as [[x rest]|] eqn:E; [|discriminate].
      injection Hs as <- <-.
      destruct (sim_scanstring _ _ _ _ H E) as (x' & r' & -> & Hr & Hv). finish. }
    destruct (c =? 123).
    { pose proof (sim_skip_ws _ _ H) as Hw.
      destruct (skip_ws s0) as [|c' r'] eqn:E; [discriminate|].
      destruct (c' =? 125) eqn:E'.
      - injection Hs as <- <-.
        apply sim_cons_l in Hw as (t' & -> & Hw); [|char_facts].
        rewrite E'. finish.
      - destruct (parse_members n (c' :: r')) as [[kvs rest]|] eqn:Em; [|discriminate].
        injection Hs as <- <-.
        destruct (IHm _ _ _ _ Hw Em) as (kvs' & rest' & Em' & Hr & Hv).
        destruct (skip_ws t0) as [|c'' t''].
        + rewrite parse_members_nil in Em'. discriminate.
        + rewrite Em'. apply parse_members_head in Em' as ->. cbn. finish. }
    destruct (c =? 91).
    { pose proof (sim_skip_ws _ _ H) as Hw.
      destruct (skip_ws s0) as [|c' r'] eqn:E; [discriminate|].
      destruct (c' =? 93) eqn:E'.
      - injection Hs as <- <-.
        apply sim_cons_l in Hw as (t' & -> & Hw); [|char_facts].
        rewrite E'. finish.
      - destruct (parse_array n (c' :: r')) as [[vs rest]|] eqn:Ea; [|discriminate].
        injection Hs as <- <-.
        destruct (IHa _ _ _ _ Hw Ea) as (vs' & rest' & Ea' & Hr & Hv).
        destruct (skip_ws t0) as [|c'' t''].
        + rewrite parse_array_nil in Ea'. discriminate.
        + rewrite Ea'. apply parse_array_head in Ea' as [_ Ea'].
          assert (E93 : (c'' =? 93) = false) by char_facts.
          rewrite E93. finish. }
    destruct (c =? 110).
    { destruct (strip_prefix (u "ull") s0) as [rest|] eqn:E; [|discriminate].
      injection Hs as <- <-.
      destruct (sim_strip_prefix (u "ull") _ _ _ ltac:(plain_word) H E) as (r' & -> & Hr). finish. }
    destruct (c =? 116).
    { destruct (strip_prefix (u "rue") s0) as [rest|] eqn:E; [|discriminate].
      injection Hs as <- <-.
      destruct (sim_strip_prefix (u "rue") _ _ _ ltac:(plain_word) H E) as (r' & -> & Hr). finish. }
    destruct (c =? 102).
    { destruct (strip_prefix (u "alse") s0) as [rest|] eqn:E; [|discriminate].
      injection Hs as <- <-.
      destruct (sim_strip_prefix (u "alse") _ _ _ ltac:(plain_word) H E) as (r' & -> & Hr). finish. }
    destruct (c =? 78).
    { destruct (strip_prefix (u "aN") s0) as [rest|] eqn:E; [|discriminate].
      injection Hs as <- <-.
      destruct (sim_strip_prefix (u "aN") _ _ _ ltac:(plain_word) H E) as (r' & -> & Hr). finish. }
    destruct (c =? 73).
    { destruct (strip_prefix (u "nfinity") s0) as [rest|] eqn:E; [|discriminate].
      injection Hs as <- <-.
      destruct (sim_strip_prefix (u "nfinity") _ _ _ ltac:(plain_word) H E) as (r' & -> & Hr). finish. }
    destruct (c =? 45).
    { destruct (strip_prefix (u "Infinity") s0) as [rest|] eqn:E.
      - injection Hs as <- <-.
        destruct (sim_strip_prefix (u "Infinity") _ _ _ ltac:(plain_word) H E) as (r' & -> & Hr). finish.
      - destruct (strip_prefix (u "Infinity") t0) as [rest'|] eqn:E'.
        + destruct (sim_strip_prefix_r (u "Infinity") _ _ _ ltac:(plain_word) H E') as (r0 & E0 & _).
          congruence.
        + destruct (sim_match_number _ _ _ _ Hwhole Hs) as (r' & -> & Hr). finish. }
    destruct (sim_match_number _ _ _ _ Hwhole Hs) as (r' & -> & Hr). finish.
  - (* parse_array *)
    intros s t vs r H Hs. cbn [parse_array] in Hs |- *.
    destruct (scan_once n s) as [[v r1]|] eqn:E; [|discriminate].
    destruct (IHs _ _ _ _ H E) as (v' & r1' & -> & H1 & Hv1).
    apply sim_skip_ws in H1.
    destruct (skip_ws r1) as [|c r2]; [discriminate|].
    destruct (c =? 93) eqn:E93.
    { injection Hs as <- <-.
      apply sim_cons_l in H1 as (t2 & -> & H2); [|char_facts].
      rewrite E93. finish. }
    destruct (c =? 44) eqn:E44; [|discriminate].
    apply N.eqb_eq in E44. subst c.
    destruct (parse_array n (skip_ws r2)) as [[vs0 rest]|] eqn:Ea; [|discriminate].
    injection Hs as <- <-.
    apply sim_comma in H1 as [(t2 & -> & H2)|(c & s' & t' & -> & Hc & _)].
    + cbn. apply sim_skip_ws in H2.
      destruct (IHa _ _ _ _ H2 Ea) as (vs' & rest' & -> & Hr & Hv2). finish.
    + rewrite skip_ws_closer in Ea by exact Hc.
      apply parse_array_head in Ea as [_ Ea]. congruence.
  - (* parse_members *)
    intros s t kvs r H Hs. cbn [parse_members] in Hs |- *.
    destruct s as [|q s0]; [discriminate|].
    destruct (q =? 34) eqn:Eq; [|discriminate].
    apply sim_cons_l in H as (t0 & -> & H); [|char_facts].
    rewrite Eq.
    destruct (scanstring s0) as [[key r1]|] eqn:Ek; [|discriminate].
    destruct (sim_scanstring _ _ _ _ H Ek) as (key' & r1' & -> & H1 & Hk).
    apply sim_skip_ws in H1.
    destruct (skip_ws r1) as [|c r2]; [discriminate|].
    destruct (c =? 58) eqn:Ec; [|discriminate].
    apply sim_cons_l in H1 as (t2 & -> & H2); [|char_facts].
    rewrite Ec. apply sim_skip_ws in H2.
    destruct (scan_once n (skip_ws r2)) as [[v r3]|] eqn:Ev; [|discriminate].
    destruct (IHs _ _ _ _ H2 Ev) as (v' & r3' & -> & H3 & Hv3).
    apply sim_skip_ws in H3.
    destruct (skip_ws r3) as [|d r4]; [discriminate|].
    destruct (d =? 125) eqn:E125.
    { injection Hs as <- <-.
      apply sim_cons_l in H3 as (t4 & -> & H4); [|char_facts].
      rewrite E125. finish. }
    destruct (d =? 44) eqn:E44; [|discriminate].
    apply N.eqb_eq in E44. subst d.
    destruct (parse_members n (skip_ws r4)) as [[kvs0 rest]|] eqn:Em; [|discriminate].
    injection Hs as <- <-.
    apply sim_comma in H3 as [(t4 & -> & H4)|(c' & s' & t' & -> & Hc & _)].
    + cbn. apply sim_skip_ws in H4.
      destruct (IHm _ _ _ _ H4 Em) as (kvs' & rest' & -> & Hr & Hv4). finish.
    + rewrite skip_ws_closer in Em by exact Hc.
      apply parse_members_head in Em. char_facts.
Qed.

End Similar.

(** ** Fuel *)

Lemma skip_ws_length s : (length (skip_ws s) <= length s)%nat.
Proof.
  induction s as [|c r IH]; [reflexivity|]. cbn [skip_ws].
  destruct (is_json_ws c); cbn [length]; lia.
Qed.

Lemma scan_items_length s items r :
  scan_items s = Some (items, r) -> (length r < length s)%nat.
Proof.
  remember (length s) as n eqn:Hn. revert s items r Hn.
  induction n as [n IH] using lt_wf_ind. intros s items r -> H.
  destruct s as [|x s1]; [discriminate|]. cbn [scan_items length] in *.
  destruct (x =? 34); [injection H as _ <-; lia|].
  destruct (x =? 92).
  { destruct s1 as [|e s2]; [discriminate|]. cbn [length].
    destruct (e =? 117).
    - destruct s2 as [|a [|b [|c2 [|d r2]]]]; try discriminate.
      destruct (hex4 a b c2 d); [|discriminate].
      destruct (scan_items r2) as [[items2 rest]|] eqn:Hr; [|discriminate].
      injection H as _ <-.
      specialize (IH (length r2) ltac:(cbn [length]; lia) _ _ _ eq_refl Hr).
      cbn [length]. lia.
    - destruct (simple_escape e); [|discriminate].
      destruct (scan_items s2) as [[items2 rest]|] eqn:Hr; [|discriminate].
      injection H as _ <-.
      specialize (IH (length s2) ltac:(cbn [length]; lia) _ _ _ eq_refl Hr). lia. }
  destruct (x <? 32); [discriminate|].
  destruct (scan_items s1) as [[items1 rest]|] eqn:Hr; [|discriminate].
  injection H as _ <-.
  specialize (IH (length s1) ltac:(cbn [length]; lia) _ _ _ eq_refl Hr). lia.
Qed.

Lemma scanstring_length s v r :
  scanstring s = Some (v, r) -> (length r < length s)%nat.
Proof.
  unfold scanstring. destruct (scan_items s) as [[items rest]|] eqn:E; [|discriminate].
  intros [= _ <-]. eapply scan_items_length, E.
Qed.

Lemma take_digits_length s ds r :
  take_digits s = (ds, r) -> (length r <= length s)%nat.
Proof.
  revert ds r. induction s as [|x s IH]; intros ds r.
  - intros [= _ <-]. reflexivity.
  - rewrite take_digits_cons. destruct (is_digit x).
    + intros [= _ <-]. destruct (take_digits s) as [ds0 r0].
      specialize (IH _ _ eq_refl). cbn [snd length]. lia.
    + intros [= _ <-]. reflexivity.
Qed.

Lemma match_number_length s v r :
  match_number s = Some (v, r) -> (length r < length s)%nat.
Proof.
  unfold match_number.
  destruct (match s with [] => _ | _ => _ end) as [neg s1] eqn:Es.
  assert (H1 : (length s1 <= length s)%nat).
  { destruct s as [|c s0]; [injection Es as _ <-; reflexivity|].
    destruct (c =? 45); injection Es as _ <-; cbn [length]; lia. }
  destruct (int_part s1) as [[ids s2]|] eqn:Ei; [|discriminate].
  assert (H2 : (length s2 < length s1)%nat).
  { destruct s1 as [|c s0]; [discriminate|]. cbn [int_part length] in *.
    destruct (c =? 48); [injection Ei as _ <-; lia|].
    destruct (is_digit c); [|discriminate].
    destruct (take_digits s0) as [ds rest] eqn:Ed. injection Ei as _ <-.
    apply take_digits_length in Ed. lia. }
  destruct (frac_part s2) as [fds s3] eqn:Ef.
  assert (H3 : (length s3 <= length s2)%nat).
  { destruct s2 as [|p [|d s0]]; try (injection Ef as _ <-; reflexivity).
    cbn [frac_part] in Ef. destruct ((p =? 46) && is_digit d).
    - apply take_digits_length in Ef. cbn [length] in *. lia.
    - injection Ef as _ <-. reflexivity. }
  destruct (exp_part s3) as [ex s4] eqn:Ex.
  assert (H4 : (length s4 <= length s3)%nat).
  { destruct s3 as [|e s0]; [injection Ex as _ <-; reflexivity|].
    cbn [exp_part] in Ex. destruct ((e =? 101) || (e =? 69)).
    - destruct (match s0 with [] => _ | _ => _ end) as [sg r1] eqn:Esg.
      assert (Hr1 : (length r1 <= length s0)%nat).
      { destruct s0 as [|c t]; [injection Esg as _ <-; reflexivity|].
        destruct (c =? 45); [injection Esg as _ <-; cbn [length]; lia|].
        destruct (c =? 43); injection Esg as _ <-; cbn [length]; lia. }
      destruct (take_digits r1) as [ds rest] eqn:Ed.
      apply take_digits_length in Ed.
      destruct ds; injection Ex as _ <-; cbn [length]; lia.
    - injection Ex as _ <-. reflexivity. }
  destruct fds, ex; intros [= _ <-]; lia.
Qed.

Lemma strip_prefix_length p s r :
  strip_prefix p s = Some r -> (length r <= length s)%nat.
Proof.
  intros H. apply strip_prefix_app in H as ->. rewrite length_app. lia.
Qed.

(** A successful scan consumes at least one code point, and succeeds
    with any fuel that is at least the number of code points consumed. *)
Lemma scan_fuel fuel :
  (forall s v r, scan_once fuel s = Some (v, r) ->
     (length r < length s)%nat
     /\ forall f, (length s - length r <= f)%nat -> scan_once f s = Some (v, r))
  /\ (forall s vs r, parse_array fuel s = Some (vs, r) ->
        (length r < length s)%nat
        /\ forall f, (length s - length r <= f)%nat -> parse_array f s = Some (vs, r))
  /\ (forall s kvs r, parse_members fuel s = Some (kvs, r) ->
        (length r < length s)%nat
        /\ forall f, (length s - length r <= f)%nat -> parse_members f s = Some (kvs, r)).
Proof.
  induction fuel as [|n (IHs & IHa & IHm)]; [repeat split; discriminate|].
  repeat apply conj.
  - intros s v r Hs. destruct s as [|c s0]; [discriminate|].
    assert (Hleaf : forall body : option (json * str),
               body = Some (v, r) ->
               (forall f, scan_once (S f) (c :: s0) = body) ->
               (length r < length (c :: s0))%nat ->
               (length r < length (c :: s0))%nat
               /\ forall f, (length (c :: s0) - length r <= f)%nat ->
                            scan_once f (c :: s0) = Some (v, r)).
    { intros body Hb Hf Hl. split; [exact Hl|]. intros f Hfl.
      destruct f as [|f]; [lia|]. rewrite Hf. exact Hb. }
    cbn [scan_once] in Hs.
    destruct (c =? 34) eqn:E34.
    { apply (Hleaf _ Hs); [intros f; cbn [scan_once]; rewrite E34; reflexivity|].
      destruct (scanstring s0) as [[x rest]|] eqn:E; [|discriminate].
      injection Hs as _ <-. apply scanstring_length in E. cbn [length]. lia. }
    destruct (c =? 123) eqn:E123.
    { pose proof (skip_ws_length s0) as Hw.
      destruct (skip_ws s0) as [|c' r'] eqn:E; [discriminate|].
      destruct (c' =? 125) eqn:E'.
      - injection Hs as <- <-. cbn [length] in *. split; [lia|].
        intros f Hf. destruct f as [|f]; [lia|].
        cbn [scan_once]. rewrite E34, E123, E, E'. reflexivity.
      - destruct (parse_members n (c' :: r')) as [[kvs rest]|] eqn:Em; [|discriminate].
        injection Hs as <- <-.
        destruct (IHm _ _ _ Em) as [Hl Hfuel]. cbn [length] in *. split; [lia|].
        intros f Hf. destruct f as [|f]; [lia|].
        cbn [scan_once]. rewrite E34, E123, E, E'.
        rewrite Hfuel by (cbn [length]; lia). reflexivity. }
    destruct (c =? 91) eqn:E91.
    { pose proof (skip_ws_length s0) as Hw.
      destruct (skip_ws s0) as [|c' r'] eqn:E; [discriminate|].
      destruct (c' =? 93) eqn:E'.
      - injection Hs as <- <-. cbn [length] in *. split; [lia|].
        intros f Hf. destruct f as [|f]; [lia|].
        cbn [scan_once]. rewrite E34, E123, E91, E, E'. reflexivity.
      - destruct (parse_array n (c' :: r')) as [[vs rest]|] eqn:Ea; [|discriminate].
        injection Hs as <- <-.
        destruct (IHa _ _ _ Ea) as [Hl Hfuel]. cbn [length] in *. split; [lia|].
        intros f Hf. destruct f as [|f]; [lia|].
        cbn [scan_once]. rewrite E34, E123, E91, E, E'.
        rewrite Hfuel by (cbn [length]; lia). reflexivity. }
    apply (Hleaf _ Hs); [intros f; cbn [scan_once]; rewrite E34, E123, E91; reflexivity|].
    cbn [length].
    repeat match type of Hs with
      | (if ?b then _ else _) = _ => destruct b
      end;
      try (match type of Hs with
           | match strip_prefix ?p ?s with _ => _ end = _ =>
               destruct (strip_prefix p s) as [rest|] eqn:E;
               [injection Hs as _ <-; apply strip_prefix_length in E; lia|]
           end);
      try discriminate;
      apply match_number_length in Hs; cbn [length] in Hs; lia.
  - intros s vs r Hs. cbn [parse_array] in Hs.
    destruct (scan_once n s) as [[v r1]|] eqn:E; [|discriminate].
    destruct (IHs _ _ _ E) as [Hl1 Hf1].
    pose proof (skip_ws_length r1) as Hw.
    destruct (skip_ws r1) as [|c r2] eqn:Er; [discriminate|]. cbn [length] in Hw.
    destruct (c =? 93) eqn:E93.
    { injection Hs as <- <-. split; [lia|].
      intros f Hf. destruct f as [|f]; [lia|].
      cbn [parse_array]. rewrite Hf1 by lia. rewrite Er, E93. reflexivity. }
    destruct (c =? 44) eqn:E44; [|discriminate].
    pose proof (skip_ws_length r2) as Hw2.
    destruct (parse_array n (skip_ws r2)) as [[vs0 rest]|] eqn:Ea; [|discriminate].
    injection Hs as <- <-.
    destruct (IHa _ _ _ Ea) as [Hl2 Hf2]. split; [lia|].
    intros f Hf. destruct f as [|f]; [lia|].
    cbn [parse_array]. rewrite Hf1 by lia. rewrite Er, E93, E44.
    rewrite Hf2 by lia. reflexivity.
  - intros s kvs r Hs. cbn [parse_members] in Hs.
    destruct s as [|q s0]; [discriminate|].
    destruct (q =? 34) eqn:Eq; [|discriminate].
    destruct (scanstring s0) as [[key r1]|] eqn:Ek; [|discriminate].
    pose proof (scanstring_length _ _ _ Ek) as Hl0.
    pose proof (skip_ws_length r1) as Hw1.
    destruct (skip_ws r1) as [|c r2] eqn:Er1; [discriminate|]. cbn [length] in Hw1.
    destruct (c =? 58) eqn:Ec; [|discriminate].
    pose proof (skip_ws_length r2) as Hw2.
    destruct (scan_once n (skip_ws r2)) as [[v r3]|] eqn:Ev; [|discriminate].
    destruct (IHs _ _ _ Ev) as [Hl3 Hf3].
    pose proof (skip_ws_length r3) as Hw3.
    destruct (skip_ws r3) as [|d r4] eqn:Er3; [discriminate|]. cbn [length] in Hw3.
    destruct (d =? 125) eqn:E125.
    { injection Hs as <- <-. cbn [length]. split; [lia|].
      intros f Hf. destruct f as [|f]; [lia|].
      cbn [parse_members]. rewrite Eq, Ek, Er1, Ec.
      rewrite Hf3 by lia. rewrite Er3, E125. reflexivity. }
    destruct (d =? 44) eqn:E44; [|discriminate].
    pose proof (skip_ws_length r4) as Hw4.
    destruct (parse_members n (skip_ws r4)) as [[kvs0 rest]|] eqn:Em; [|discriminate].
    injection Hs as <- <-.
    destruct (IHm _ _ _ Em) as [Hl4 Hf4]. cbn [length]. split; [lia|].
    intros f Hf. destruct f as [|f]; [lia|].
    cbn [parse_members]. rewrite Eq, Ek, Er1, Ec.
    rewrite Hf3 by lia. rewrite Er3, E125, E44.
    rewrite Hf4 by lia. reflexivity.
Qed.

(** One unit of fuel per code point is enough: more fuel never changes
    the outcome of a successful scan. *)
Lemma scan_once_fuel fuel s v r :
  scan_once fuel s = Some (v, r) -> scan_once (S (length s)) s = Some (v, r).
Proof.
  intros H. destruct (proj1 (scan_fuel fuel) _ _ _ H) as [_ Hf]. apply Hf. lia.
Qed.

(** ** [json.loads] on similar texts *)

Lemma sim_nil_r drops t : similar drops [] t -> t = [].
Proof. inversion 1; reflexivity. Qed.

(** A text similar to one that is decoded is decoded as well, to the
    same value when no comma was deleted. *)
Lemma json_loads_sim drops s t v :
  similar drops s t -> json_loads s = Ok v ->
  exists v', json_loads t = Ok v' /\ (drops = false -> v' = v).
Proof.
  unfold json_loads. intros H Hs.
  destruct (scan_once (S (length s)) (skip_ws s)) as [[v0 r]|] eqn:E; [|discriminate].
  destruct (skip_ws r) eqn:Er; [|discriminate]. injection Hs as ->.
  destruct (proj1 (sim_scan drops _) _ _ _ _ (sim_skip_ws drops _ _ H) E)
    as (v' & r' & E' & Hr & Hv).
  destruct (proj1 (scan_fuel _) _ _ _ E') as [_ Hf].
  rewrite (Hf (S (length t))) by (pose proof (skip_ws_length t); lia).
  apply sim_skip_ws in Hr. rewrite Er in Hr. apply sim_nil_r in Hr as ->.
  eauto.
Qed.

Lemma json_ws_is_space c : is_json_ws c = true -> is_space c = true.
Proof.
  unfold is_json_ws. intros H.
  repeat (apply orb_true_iff in H as [H|H]); apply N.eqb_eq in H; subst; reflexivity.
Qed.

Lemma removable_space c : removable c = false -> is_space c = false.
Proof. unfold removable. intros H. apply orb_false_iff in H as [_ H]. exact H. Qed.

(** Before a value there is JSON white space only. *)
Lemma lstrip_skip_ws fuel s v r :
  scan_once fuel (skip_ws s) = Some (v, r) -> lstrip s = skip_ws s.
Proof.
  induction s as [|c s IH]; [reflexivity|]. cbn [skip_ws lstrip].
  destruct (is_json_ws c) eqn:E.
  - rewrite (json_ws_is_space c E). exact IH.
  - intros H. apply scan_once_head in H as [H _].
    rewrite (removable_space c H). reflexivity.
Qed.

Lemma skip_ws_idem s : skip_ws (skip_ws s) = skip_ws s.
Proof.
  induction s as [|c s IH]; [reflexivity|]. cbn [skip_ws].
  destruct (is_json_ws c) eqn:E; [exact IH|]. cbn [skip_ws]. rewrite E. reflexivity.
Qed.

Lemma json_loads_lstrip s v : json_loads s = Ok v -> json_loads (lstrip s) = Ok v.
Proof.
  unfold json_loads. intros Hs.
  destruct (scan_once (S (length s)) (skip_ws s)) as [[v0 r]|] eqn:E; [|discriminate].
  rewrite (lstrip_skip_ws _ _ _ _ E), skip_ws_idem.
  destruct (proj1 (scan_fuel _) _ _ _ E) as [_ Hf].
  rewrite (Hf (S (length (skip_ws s)))) by lia. exact Hs.
Qed.

Lemma sim_app_spaces drops s w : forallb is_space w = true -> similar drops (s ++ w) s.
Proof.
  intros Hw. induction s as [|x s IH]; [apply sim_end, Hw | apply sim_keep, IH].
Qed.

Lemma sim_rstrip drops s : similar drops s (rstrip s).
Proof.
  destruct (rstrip_prefix s) as (w & Hw & Hs). rewrite Hw at 1.
  apply sim_app_spaces, Hs.
Qed.

(** [strip] does not change what a valid text decodes to. *)
Lemma json_loads_strip s v : json_loads s = Ok v -> json_loads (strip s) = Ok v.
Proof.
  intros H. apply json_loads_lstrip in H.
  destruct (json_loads_sim false _ _ _ (sim_rstrip false (lstrip s)) H) as (v' & Hv' & Hv).
  unfold strip. rewrite Hv', (Hv eq_refl). reflexivity.
Qed.

Lemma sim_drop_commas c s : is_closer c = true -> similar true s (drop_commas c s).
Proof.
  intros Hc. assert (Hc' : c <> 44) by char_facts.
  induction s as [|x r IH]; [apply sim_end; reflexivity|].
  rewrite drop_commas_cons.
  destruct ((x =? 44) && head_is c r) eqn:E; [|apply sim_keep, IH].
  apply andb_true_iff in E as [Ex Eh]. apply N.eqb_eq in Ex. subst x.
  destruct r as [|y r]; [discriminate|]. cbn [head_is] in Eh.
  apply N.eqb_eq in Eh. subst y.
  rewrite drop_commas_closer in IH |- * by exact Hc'.
  apply sim_cons_l in IH as (t' & [= <-] & IH); [|char_facts].
  apply sim_drop; [reflexivity | exact Hc | exact IH].
Qed.

(** A valid text is still valid after the comma cleanup. *)
Lemma json_loads_cleanup s v :
  json_loads s = Ok v -> exists v', json_loads (cleanup_commas s) = Ok v'.
Proof.
  intros H. rewrite cleanup_commas_eq.
  destruct (json_loads_sim true _ _ _ (sim_drop_commas 93 s eq_refl) H) as (v1 & H1 & _).
  destruct (json_loads_sim true _ _ _ (sim_drop_commas 125 _ eq_refl) H1) as (v2 & H2 & _).
  exists v2. apply json_loads_strip, H2.
Qed.

Lemma drop_commas_none c s : adjacent 44 c s = false -> drop_commas c s = s.
Proof.
  induction s as [|x r IH]; [reflexivity|]. cbn [adjacent]. intros H.
  apply orb_false_iff in H as [H1 H2]. rewrite drop_commas_cons, H1, (IH H2).
  reflexivity.
Qed.

(** Where no comma stands before a closer the cleanup keeps the value. *)
Lemma json_loads_cleanup_same s v :
  comma_before_closer s = false ->
  json_loads s = Ok v -> json_loads (cleanup_commas s) = Ok v.
Proof.
  unfold comma_before_closer. intros Hc H.
  apply orb_false_iff in Hc as [H1 H2].
  rewrite cleanup_commas_eq, (drop_commas_none 93 s H1), (drop_commas_none 125 s H2).
  apply json_loads_strip, H.
Qed.

(** ** A fenced reply *)

Lemma lstrip_app a b : lstrip a <> [] -> lstrip (a ++ b) = lstrip a ++ b.
Proof.
  induction a as [|c a IH]; [intros H; destruct H; reflexivity|]. cbn [app lstrip].
  destruct (is_space c); [exact IH | reflexivity].
Qed.

Lemma lstrip_idem s : lstrip (lstrip s) = lstrip s.
Proof.
  induction s as [|c s IH]; [reflexivity|]. cbn [lstrip].
  destruct (is_space c) eqn:E; [exact IH|]. cbn [lstrip]. rewrite E. reflexivity.
Qed.

Lemma rstrip_snoc s y : is_space y = false -> rstrip (s ++ [y]) = s ++ [y].
Proof.
  intros Hy. unfold rstrip. rewrite rev_app_distr. cbn [rev app lstrip].
  rewrite Hy. cbn [rev]. rewrite rev_involutive. reflexivity.
Qed.

Lemma json_loads_lstrip_nonempty s v : json_loads s = Ok v -> lstrip s <> [].
Proof.
  unfold json_loads. intros Hs.
  destruct (scan_once (S (length s)) (skip_ws s)) as [[v0 r]|] eqn:E; [|discriminate].
  rewrite (lstrip_skip_ws _ _ _ _ E). intros Hn. rewrite Hn in E. discriminate.
Qed.

(** Lines 104-107 on a text made of an opening fence, a payload and a
    closing fence: what is left is the payload, stripped. *)
Lemma strip_fences_fenced payload :
  lstrip payload <> [] ->
  strip_fences (u "```json" ++ payload ++ u "```") = strip payload.
Proof.
  intros Hp. unfold strip_fences. rewrite startswith_app.
  change (u "```json") with (96 :: u "``json").
  rewrite replace_first_prefix. cbn [app].
  assert (Hs : strip (payload ++ u "```") = lstrip payload ++ u "```").
  { unfold strip. rewrite lstrip_app by exact Hp.
    change (u "```") with ([96; 96] ++ [96]). rewrite app_assoc.
    apply rstrip_snoc. reflexivity. }
  rewrite Hs.
  assert (He : endswith (u "```") (lstrip payload ++ u "```") = true).
  { unfold endswith. rewrite rev_app_distr. apply startswith_app. }
  rewrite He. unfold drop_last. rewrite length_app.
  change (length (u "```")) with 3%nat.
  replace (length (lstrip payload) + 3 - 3)%nat with (length (lstrip payload)) by lia.
  rewrite take_app_length. unfold strip. rewrite lstrip_idem. reflexivity.
Qed.

(** C4.  When the reply is a valid JSON payload between a [```json]
    fence and a closing fence, the fences are removed before parsing:
    the text handed to [json.loads] is the stripped payload after the
    comma cleanup; parsing it succeeds, and gives the value of the
    payload when no comma of the payload stands immediately before a
    closer. *)
Theorem fenced_json_is_parsed (payload : str) (v : json) :
  json_loads payload = Ok v ->
  let text := u "```json" ++ payload ++ u "```" in
  strip_fences text = strip payload
  /\ clean_text text = cleanup_commas (strip payload)
  /\ (exists v', json_loads (clean_text text) = Ok v')
  /\ (comma_before_closer payload = false -> json_loads (clean_text text) = Ok v).
Proof.
  intros H text.
  assert (Hf : strip_fences text = strip payload)
    by (apply strip_fences_fenced; eapply json_loads_lstrip_nonempty, H).
  assert (Hc : clean_text text = cleanup_commas (strip payload))
    by (unfold clean_text; rewrite Hf; reflexivity).
  pose proof (json_loads_strip _ _ H) as Hs.
  repeat apply conj; [exact Hf | exact Hc | |].
  - rewrite Hc. eapply json_loads_cleanup, Hs.
  - intros Hn. rewrite Hc. apply json_loads_cleanup_same; [|exact Hs].
    unfold comma_before_closer in *. apply orb_false_iff in Hn as [H1 H2].
    apply orb_false_iff. split.
    + destruct (adjacent 44 93 (strip payload)) eqn:E; [|reflexivity].
      rewrite <- H1. symmetry. eapply adjacent_infix; [apply strip_infix | exact E].
    + destruct (adjacent 44 125 (strip payload)) eqn:E; [|reflexivity].
      rewrite <- H2. symmetry. eapply adjacent_infix; [apply strip_infix | exact E].
Qed.

Lemma fenced_json_is_parsed_witness :
  exists v', json_loads (clean_text (u "```json" ++ j "
[{'name': 'Amoxicillin', 'quantity': '500mg', 'duration': 5}]
" ++ u "```")) = Ok v'.
Proof.
  refine (proj1 (proj2 (proj2 (fenced_json_is_parsed (j "
[{'name': 'Amoxicillin', 'quantity': '500mg', 'duration': 5}]
") _ _)))).
  vm_compute. reflexivity.
Defined.

(** * Further properties of the handler *)

(** ** The checks on the upload and the outer [try] *)

(** X1.  An [image] field whose file name is empty is refused with 400
    and the message [No selected image file]; the model is not called. *)
Theorem empty_filename_is_400 (dec : N -> option N) (gen : ModelCall -> res str)
    (files : Files) (f : FileStorage) :
  files_get (u "image") files = Some f ->
  filename f = [] ->
  process_image dec gen files
  = ({| status := 400; body := error_body "No selected image file" |}, []).
Proof. intros Hf Hn. unfold process_image. rewrite Hf, Hn. reflexivity. Qed.

Lemma empty_filename_is_400_witness :
  process_image arabic_indic (fun _ => Ok (j "[]"))
    [(u "image", {| filename := []; mimetype := u "image/png"; content := [1; 2] |})]
  = ({| status := 400; body := error_body "No selected image file" |}, []).
Proof.
  apply (empty_filename_is_400 _ _ _
           {| filename := []; mimetype := u "image/png"; content := [1; 2] |});
    reflexivity.
Defined.



(** ** When the loop raises *)

Lemma py_int_raises dec v e :
  py_int dec v = Raise e ->
  e = ValueError \/ e = TypeError
  \/ (e = OverflowError /\ exists s, v = JFloat (S754_infinity s)).
Proof.
  destruct v as [|b|z|f|s|l|m]; cbn [py_int]; try discriminate;
    try (intros [= <-]; auto).
  - destruct f; cbn [int_of_float]; try discriminate; intros [= <-]; eauto.
  - intros H. apply int_of_str_raises in H. auto.
Qed.

Lemma coerce_duration_finite dec m :
  infinite_duration m = false -> exists d, coerce_duration dec m = Ok d.
Proof.
  unfold infinite_duration, coerce_duration, dict_get. intros H.
  destruct (py_int dec (default (JInt (-1)) (m !! u "duration"))) as [z|e] eqn:E;
    [eauto|].
  apply py_int_raises in E as [->|[->|[-> [s Hs]]]]; [eauto | eauto |].
  destruct (m !! u "duration") as [v|]; simpl in Hs; [|discriminate].
  rewrite Hs in H. discriminate.
Qed.

Lemma coerce_duration_infinite dec m :
  infinite_duration m = true -> coerce_duration dec m = Raise OverflowError.
Proof.
  unfold infinite_duration, coerce_duration, dict_get.
  destruct (m !! u "duration") as [[| | |[]| | |]|]; try discriminate. reflexivity.
Qed.

Lemma normalize_item_accepts dec item :
  loop_accepts item = true ->
  exists m d, item = JDict m /\ coerce_duration dec m = Ok d
              /\ normalize_item dec item = Ok (JDict (normalized m d)).
Proof.
  destruct item as [| | | | | |m]; try discriminate. cbn [loop_accepts].
  intros H. apply negb_true_iff in H.
  destruct (coerce_duration_finite dec m H) as (d & Hd).
  exists m, d. repeat split; [exact Hd|].
  cbn [normalize_item]. rewrite normalize_record_eq, Hd. reflexivity.
Qed.

Lemma normalize_item_rejects dec item :
  loop_accepts item = false ->
  normalize_item dec item = Raise AttributeError
  \/ normalize_item dec item = Raise OverflowError.
Proof.
  destruct item as [| | | | | |m]; try (left; reflexivity). cbn [loop_accepts].
  intros H. apply negb_false_iff in H. right.
  cbn [normalize_item]. rewrite normalize_record_eq.
  rewrite (coerce_duration_infinite dec m H). reflexivity.
Qed.

(** How the loop ends, by the elements of the list. *)
Lemma normalize_loop_outcome dec items :
  (forallb loop_accepts items = true ->
     exists items', normalize_loop dec items = (items', None))
  /\ (forallb loop_accepts items = false ->
        exists items' e, normalize_loop dec items = (items', Some e)
                         /\ (e = AttributeError \/ e = OverflowError)).
Proof.
  induction items as [|item rest [IH1 IH2]]; cbn [forallb normalize_loop].
  - split; [eauto | discriminate].
  - split.
    + intros H. apply andb_true_iff in H as [Hi Hr].
      destruct (normalize_item_accepts dec item Hi) as (m & d & _ & _ & ->).
      destruct (IH1 Hr) as (rest' & ->). eauto.
    + intros H. destruct (loop_accepts item) eqn:Hi.
      * destruct (normalize_item_accepts dec item Hi) as (m & d & _ & _ & ->).
        destruct (IH2 H) as (rest' & e & -> & He). eauto.
      * destruct (normalize_item_rejects dec item Hi) as [-> | ->]; eauto.
Qed.

(** X6.  The loop runs to its end exactly when every element of the
    list is an object whose duration is not an infinite float; the only
    exceptions it can stop with are [AttributeError] (an element that is
    no object) and [OverflowError] (an infinite duration). *)
Theorem loop_raises_iff (dec : N -> option N) (items : list json) :
  ((exists items', normalize_loop dec items = (items', None))
   <-> forallb loop_accepts items = true)
  /\ (forall items' e, normalize_loop dec items = (items', Some e) ->
        e = AttributeError \/ e = OverflowError).
Proof.
  destruct (normalize_loop_outcome dec items) as [H1 H2].
  destruct (forallb loop_accepts items) eqn:E.
  - destruct (H1 eq_refl) as (items' & Hl). split.
    + split; [reflexivity | eauto].
    + intros l e He. rewrite Hl in He. discriminate.
  - destruct (H2 eq_refl) as (items' & e & Hl & He). split.
    + split; [|discriminate]. intros (l & Hl'). rewrite Hl in Hl'. discriminate.
    + intros l e' He'. rewrite Hl in He'. injection He' as _ <-. exact He.
Qed.

Lemma loop_raises_iff_witness :
  exists items', normalize_loop arabic_indic (map JDict sample_records) = (items', None).
Proof.
  apply (proj2 (proj1 (loop_raises_iff arabic_indic (map JDict sample_records)))).
  vm_compute. reflexivity.
Defined.




(** X8.  A reply that parses to an array with an element that is no
    object, or with an infinite duration, is answered with the generic
    500: nothing of the list reaches the caller. *)
Theorem rejected_element_is_500 (dec : N -> option N) (gen : ModelCall -> res str)
    (files : Files) (f : FileStorage) (raw : str) (l : list json) :
  files_get (u "image") files = Some f ->
  filename f <> [] ->
  gen (mimetype f, content f) = Ok raw ->
  json_loads (clean_text (strip raw)) = Ok (JList l) ->
  forallb loop_accepts l = false ->
  (process_image dec gen files).1 = internal_error.
Proof.
  intros Hf Hn Hg Hj Hl.
  destruct (proj2 (normalize_loop_outcome dec l) Hl) as (l' & e & Hd & _).
  rewrite (process_image_upload _ _ _ f) by assumption. cbn [fst].
  unfold process_upload. rewrite Hg. cbn. unfold parse_reply. rewrite Hj. cbn.
  rewrite Hd. reflexivity.
Qed.

Lemma rejected_element_is_500_witness :
  (process_image arabic_indic (fun _ => Ok (j "[{'name': 'X'}, 'Y']")) sample_upload).1
  = internal_error.
Proof.
  apply (rejected_element_is_500 arabic_indic (fun _ => Ok (j "[{'name': 'X'}, 'Y']"))
           sample_upload
           {| filename := u "rx.png"; mimetype := u "image/png";
              content := [137; 80; 78; 71] |}
           (j "[{'name': 'X'}, 'Y']")
           [JDict {[ u "name" := JStr (u "X") ]}; JStr (u "Y")]);
    [reflexivity | discriminate | reflexivity | vm_compute; reflexivity
    | vm_compute; reflexivity].
Defined.

(** ** The record after the body of the loop *)

Lemma normalize_record_inv dec m m' :
  normalize_record dec m = Ok m' ->
  exists d, coerce_duration dec m = Ok d /\ m' = normalized m d.
Proof.
  rewrite normalize_record_eq.
  destruct (coerce_duration dec m) as [d|e]; [|discriminate].
  intros [= <-]. eauto.
Qed.

(** What [item.get(key, dflt) or dflt] evaluates to: the default, or the
    truthy value found under the key. *)
Lemma py_or_dict_get m k dflt :
  py_or (dict_get m k dflt) dflt = dflt
  \/ (m !! k = Some (py_or (dict_get m k dflt) dflt)
      /\ truthy (py_or (dict_get m k dflt) dflt) = true).
Proof.
  unfold py_or, dict_get. destruct (m !! k) as [v|]; simpl.
  - destruct (truthy v) eqn:E; [right; split; [reflexivity | exact E] | left; reflexivity].
  - left. destruct (truthy dflt); reflexivity.
Qed.

(** The five fields of a record after the body of the loop. *)
Lemma normalized_fields (m : gmap str json) (d : Z) :
  (exists v, normalized m d !! u "meal" = Some v /\ truthy v = true
             /\ (v = JStr (u "anytime") \/ m !! u "meal" = Some v))
  /\ (forall k, k ∈ [u "name"; u "quantity"; u "frequency"] ->
        exists v, normalized m d !! k = Some v
                  /\ (v = JStr [] \/ (m !! k = Some v /\ truthy v = true))).
Proof.
  split.
  - eexists. split; [apply normalized_meal|].
    destruct (py_or_dict_get m (u "meal") (JStr (u "anytime"))) as [E|[E1 E2]].
    + rewrite E. split; [reflexivity | left; reflexivity].
    + split; [exact E2 | right; exact E1].
  - intros k Hk.
    repeat (apply elem_of_cons in Hk; destruct Hk as [->|Hk]);
      [ | | | apply elem_of_nil in Hk; destruct Hk ];
      eexists; (split; [first [apply normalized_name | apply normalized_quantity
                              | apply normalized_frequency]|]);
      match goal with
      | |- context [dict_get m ?k _] =>
          destruct (py_or_dict_get m k (JStr [])) as [E|E]; [left; exact E | right; exact E]
      end.
Qed.

Lemma py_or_found_or (m : gmap str json) (k : str) (dflt : json) :
  py_or (dict_get m k dflt) dflt = found_or m k dflt.
Proof.
  unfold py_or, dict_get, found_or. destruct (m !! k) as [w|]; simpl; [reflexivity|].
  destruct (truthy dflt); reflexivity.
Qed.

(** X9.  After the body of the loop a record has an integer duration, a
    meal that is never empty (the value found when it is truthy,
    [anytime] otherwise) and, for name, quantity and frequency, the
    value found when it is truthy, the empty string otherwise. *)
Theorem normalized_schema (dec : N -> option N) (m m' : gmap str json) :
  normalize_record dec m = Ok m' ->
  (exists z, coerce_duration dec m = Ok z /\ m' !! u "duration" = Some (JInt z))
  /\ m' !! u "meal" = Some (found_or m (u "meal") (JStr (u "anytime")))
  /\ truthy (found_or m (u "meal") (JStr (u "anytime"))) = true
  /\ (forall k, k ∈ [u "name"; u "quantity"; u "frequency"] ->
        m' !! k = Some (found_or m k (JStr []))).
Proof.
  intros H. apply normalize_record_inv in H as (d & Hd & ->).
  repeat apply conj.
  - exists d. split; [exact Hd | apply normalized_duration].
  - rewrite normalized_meal, py_or_found_or. reflexivity.
  - unfold found_or. destruct (m !! u "meal") as [w|]; [|reflexivity].
    destruct (truthy w) eqn:E; [exact E | reflexivity].
  - intros k Hk.
    repeat (apply elem_of_cons in Hk; destruct Hk as [->|Hk]);
      [ | | | apply elem_of_nil in Hk; destruct Hk ];
      rewrite <- py_or_found_or;
      first [apply normalized_name | apply normalized_quantity | apply normalized_frequency].
Qed.

Lemma normalized_schema_witness :
  normalized {[ u "meal" := JStr [] ]} (-1) !! u "meal" = Some (JStr (u "anytime")).
Proof.
  destruct (normalized_schema arabic_indic {[ u "meal" := JStr [] ]}
              (normalized {[ u "meal" := JStr [] ]} (-1)))
    as (_ & Hm & _).
  - vm_compute. reflexivity.
  - rewrite Hm. vm_compute. reflexivity.
Defined.

Lemma py_or_texty m k s :
  texty (m !! k) = true -> exists s', py_or (dict_get m k (JStr s)) (JStr s) = JStr s'.
Proof.
  unfold texty, py_or, dict_get.
  destruct (m !! k) as [[| | | |s0| |]|]; try discriminate; intros _; cbn.
  - eauto.
  - destruct s0; eauto.
  - destruct s; eauto.
Qed.

(** X10.  When each of the four text fields of a record is missing,
    [null] or a string, the record has the declared types after the
    body of the loop: an integer duration and four strings. *)
Theorem text_fields_become_strings (dec : N -> option N) (m m' : gmap str json) :
  normalize_record dec m = Ok m' ->
  (forall k, k ∈ text_keys -> texty (m !! k) = true) ->
  (exists z, m' !! u "duration" = Some (JInt z))
  /\ forall k, k ∈ text_keys -> exists s, m' !! k = Some (JStr s).
Proof.
  intros H Ht. apply normalize_record_inv in H as (d & _ & ->).
  split; [exists d; apply normalized_duration|].
  intros k Hk. specialize (Ht k Hk). unfold text_keys in Hk.
  repeat (apply elem_of_cons in Hk; destruct Hk as [->|Hk]);
    [ rewrite normalized_name | rewrite normalized_quantity
    | rewrite normalized_meal | rewrite normalized_frequency
    | apply elem_of_nil in Hk; destruct Hk ];
    match goal with
    | |- context [py_or (dict_get m ?k (JStr ?s)) _] =>
        destruct (py_or_texty m k s Ht) as (s' & ->); eauto
    end.
Qed.

Lemma text_fields_become_strings_witness :
  exists s, normalized (<[u "quantity" := JNull]> {[ u "name" := JStr (u "X") ]}) (-1)
              !! u "quantity" = Some (JStr s).
Proof.
  destruct (text_fields_become_strings arabic_indic
              (<[u "quantity" := JNull]> {[ u "name" := JStr (u "X") ]})
              (normalized (<[u "quantity" := JNull]> {[ u "name" := JStr (u "X") ]}) (-1)))
    as (_ & H).
  - vm_compute. reflexivity.
  - intros k Hk. unfold text_keys in Hk.
    repeat (apply elem_of_cons in Hk; destruct Hk as [->|Hk]);
      [ | | | | apply elem_of_nil in Hk; destruct Hk ]; vm_compute; reflexivity.
  - apply H. unfold text_keys. set_solver.
Defined.

(** X11.  The body of the loop adds the five fields to the keys of a
    record and removes none. *)
Theorem normalized_keys (dec : N -> option N) (m m' : gmap str json) :
  normalize_record dec m = Ok m' ->
  dom m' = list_to_set schema_keys ∪ dom m.
Proof.
  intros H. apply normalize_record_inv in H as (d & _ & ->).
  unfold normalized, schema_keys. rewrite !dom_insert_L.
  cbn [list_to_set foldr]. apply set_eq. intros k.
  rewrite !elem_of_union, !elem_of_singleton, elem_of_empty. tauto.
Qed.

Lemma normalized_keys_witness :
  dom (normalized {[ u "note" := JNull ]} (-1))
  = list_to_set schema_keys ∪ dom ({[ u "note" := JNull ]} : gmap str json).
Proof.
  apply (normalized_keys arabic_indic). vm_compute. reflexivity.
Defined.

(** X12.  The records the loop leaves unchanged are exactly those with
    an integer duration, a truthy meal, and a name, a quantity and a
    frequency that are each truthy or the empty string. *)
Theorem normalize_record_fixed_iff (dec : N -> option N) (m : gmap str json) :
  normalize_record dec m = Ok m
  <-> (exists z, m !! u "duration" = Some (JInt z))
      /\ (exists v, m !! u "meal" = Some v /\ truthy v = true)
      /\ (forall k, k ∈ [u "name"; u "quantity"; u "frequency"] ->
            exists v, m !! k = Some v /\ (truthy v = true \/ v = JStr [])).
Proof.
  split.
  - intros H. destruct (normalize_record_inv dec m m H) as (d & _ & E).
    destruct (normalized_fields m d) as ((v & Hv & Ht & _) & Hk).
    rewrite <- E in Hv, Hk.
    assert (Hd : exists z, m !! u "duration" = Some (JInt z)).
    { exists d. rewrite E at 1. apply normalized_duration. }
    repeat apply conj; [exact Hd | eauto |].
    intros k Hin. destruct (Hk k Hin) as (w & Hw & [->|[_ Hw']]); eauto.
  - intros ((z & Hz) & (v & Hv & Ht) & Hk).
    assert (Hd : coerce_duration dec m = Ok z).
    { unfold coerce_duration. rewrite (dict_get_lookup _ _ _ _ Hz). reflexivity. }
    rewrite normalize_record_eq, Hd. f_equal.
    assert (Hor : forall k w, m !! k = Some w -> truthy w = true \/ w = JStr [] ->
                              py_or (dict_get m k (JStr [])) (JStr []) = w).
    { intros k w Hw Hc. rewrite (dict_get_lookup _ _ _ _ Hw).
      destruct Hc as [Hc| ->]; [apply py_or_truthy, Hc | reflexivity]. }
    apply map_eq. intros k.
    destruct (decide (k ∈ schema_keys)) as [Hin|Hout];
      [|apply normalized_other, Hout].
    unfold schema_keys in Hin.
    repeat (apply elem_of_cons in Hin; destruct Hin as [->|Hin]);
      [ | | | | | apply elem_of_nil in Hin; destruct Hin ].
    + destruct (Hk (u "name") ltac:(set_solver)) as (w & Hw & Hc).
      rewrite normalized_name, Hw, (Hor _ _ Hw Hc). reflexivity.
    + destruct (Hk (u "quantity") ltac:(set_solver)) as (w & Hw & Hc).
      rewrite normalized_quantity, Hw, (Hor _ _ Hw Hc). reflexivity.
    + rewrite normalized_duration, Hz. reflexivity.
    + rewrite normalized_meal, Hv, (dict_get_lookup _ _ _ _ Hv).
      rewrite (py_or_truthy _ _ Ht). reflexivity.
    + destruct (Hk (u "frequency") ltac:(set_solver)) as (w & Hw & Hc).
      rewrite normalized_frequency, Hw, (Hor _ _ Hw Hc). reflexivity.
Qed.

Lemma normalize_record_fixed_iff_witness :
  exists z, normalized {[ u "name" := JStr (u "X") ]} 3 !! u "duration" = Some (JInt z).
Proof.
  apply (proj1 (normalize_record_fixed_iff arabic_indic
                  (normalized {[ u "name" := JStr (u "X") ]} 3))).
  vm_compute. reflexivity.
Defined.

(** ** Durations written as strings *)

Lemma to_ascii_digits dec ds :
  forallb is_digit ds = true -> map (to_ascii_digit dec) ds = ds.
Proof.
  induction ds as [|c r IH]; [reflexivity|]. cbn [forallb map]. intros H.
  apply andb_true_iff in H as [Hc Hr]. rewrite (IH Hr). f_equal.
  unfold to_ascii_digit. assert (E : (c <? 127) = true) by char_facts.
  rewrite E. reflexivity.
Qed.

Lemma to_ascii_c_space dec ws :
  forallb is_c_space ws = true -> map (to_ascii_digit dec) ws = ws.
Proof.
  induction ws as [|c r IH]; [reflexivity|]. cbn [forallb map]. intros H.
  apply andb_true_iff in H as [Hc Hr]. rewrite (IH Hr). f_equal.
  unfold to_ascii_digit.
  assert (E : (c <? 127) = true) by (unfold is_c_space in Hc; char_facts).
  rewrite E. reflexivity.
Qed.

Lemma skip_c_space_app ws r :
  forallb is_c_space ws = true -> skip_c_space (ws ++ r) = skip_c_space r.
Proof.
  induction ws as [|c w IH]; [reflexivity|]. cbn [forallb app skip_c_space].
  intros H. apply andb_true_iff in H as [-> Hw]. apply IH, Hw.
Qed.

Lemma skip_c_space_all ws : forallb is_c_space ws = true -> skip_c_space ws = [].
Proof.
  intros H. rewrite <- (app_nil_r ws). rewrite (skip_c_space_app _ _ H). reflexivity.
Qed.

(** The digits of a literal are read up to the white space that follows
    them. *)
Lemma int_digits_run acc ds post :
  forallb is_digit ds = true -> forallb is_c_space post = true ->
  int_digits false acc (ds ++ post)
  = Some (fold_left (fun a d => (10 * a + Z.of_N (d - 48))%Z) ds acc, post).
Proof.
  intros Hd Hp. revert acc. induction ds as [|c r IH]; intros acc.
  - destruct post as [|x post']; [reflexivity|]. cbn [app fold_left int_digits].
    cbn [forallb] in Hp. apply andb_true_iff in Hp as [Hx _].
    assert (E1 : is_digit x = false) by (unfold is_c_space in Hx; char_facts).
    assert (E2 : (x =? 95) = false) by (unfold is_c_space in Hx; char_facts).
    rewrite E1, E2. reflexivity.
  - cbn [forallb] in Hd. apply andb_true_iff in Hd as [Hc Hr].
    cbn [app int_digits fold_left]. rewrite Hc. apply IH, Hr.
Qed.

Lemma filter_digits_run ds post :
  forallb is_digit ds = true -> forallb is_c_space post = true ->
  List.filter is_digit (ds ++ post) = ds.
Proof.
  intros Hd Hp. rewrite List.filter_app.
  assert (E1 : List.filter is_digit ds = ds).
  { clear Hp. induction ds as [|c r IH]; [reflexivity|]. cbn [forallb] in Hd.
    apply andb_true_iff in Hd as [Hc Hr]. cbn [List.filter]. rewrite Hc, (IH Hr).
    reflexivity. }
  assert (E2 : List.filter is_digit post = []).
  { clear Hd E1. induction post as [|c r IH]; [reflexivity|]. cbn [forallb] in Hp.
    apply andb_true_iff in Hp as [Hc Hr]. cbn [List.filter].
    assert (E : is_digit c = false) by (unfold is_c_space in Hc; char_facts).
    rewrite E. apply IH, Hr. }
  rewrite E1, E2. apply app_nil_r.
Qed.

(** [int] accepts a run of at most [int_max_str_digits] ASCII digits,
    with or without a sign in front and with white space around. *)
Lemma int_of_str_literal dec (pre ds post : str) :
  forallb is_c_space pre = true -> forallb is_c_space post = true ->
  ds <> [] -> forallb is_digit ds = true -> (length ds <= int_max_str_digits)%nat ->
  int_of_str dec (pre ++ ds ++ post) = Ok (digits_value ds)
  /\ int_of_str dec (pre ++ 43 :: ds ++ post) = Ok (digits_value ds)
  /\ int_of_str dec (pre ++ 45 :: ds ++ post) = Ok (- digits_value ds)%Z.
Proof.
  intros Hpre Hpost Hne Hd Hlen.
  assert (Hrun : forall neg : bool,
            match ds ++ post return res Z with
            | c :: _ =>
                if is_digit c then
                  match int_digits false 0%Z (ds ++ post) with
                  | Some (z, rest) =>
                      match skip_c_space rest with
                      | [] =>
                          if (int_max_str_digits <? length (List.filter is_digit (ds ++ post)))%nat
                          then Raise ValueError
                          else Ok (if neg then - z else z)%Z
                      | _ :: _ => Raise ValueError
                      end
                  | None => Raise ValueError
                  end
                else Raise ValueError
            | [] => Raise ValueError
            end = Ok (if neg then - digits_value ds else digits_value ds)%Z).
  { intros neg. rewrite (int_digits_run 0 ds post Hd Hpost).
    rewrite (skip_c_space_all post Hpost), (filter_digits_run ds post Hd Hpost).
    destruct ds as [|c r]; [congruence|]. cbn [app].
    cbn [forallb] in Hd. apply andb_true_iff in Hd as [Hc _]. rewrite Hc.
    destruct (Nat.ltb_spec int_max_str_digits (length (c :: r))); [lia|]. reflexivity. }
  assert (Hhead : exists c r, ds ++ post = c :: r /\ is_digit c = true).
  { destruct ds as [|c r]; [congruence|]. cbn [forallb] in Hd.
    apply andb_true_iff in Hd as [Hc _]. exists c, (r ++ post). split; [reflexivity | exact Hc]. }
  assert (Hmap : forall mid, map (to_ascii_digit dec) (pre ++ mid ++ ds ++ post)
                             = pre ++ map (to_ascii_digit dec) mid ++ ds ++ post).
  { intros mid. rewrite !map_app, (to_ascii_c_space dec pre Hpre),
      (to_ascii_digits dec ds Hd), (to_ascii_c_space dec post Hpost). reflexivity. }
  repeat apply conj; unfold int_of_str.
  - pose proof (Hmap []) as Hm. cbn [map app] in Hm. rewrite Hm.
    rewrite (skip_c_space_app _ _ Hpre).
    destruct Hhead as (c & r & E & Hc). 
    assert (Hs : skip_c_space (ds ++ post) = ds ++ post).
    { rewrite E. cbn [skip_c_space].
      assert (E1 : is_c_space c = false) by (unfold is_c_space; char_facts).
      rewrite E1. reflexivity. }
    rewrite Hs. pose proof (Hrun false) as Hr. rewrite E in Hr |- *.
    assert (E43 : (c =? 43) = false) by char_facts.
    assert (E45 : (c =? 45) = false) by char_facts.
    rewrite E43, E45. exact Hr.
  - pose proof (Hmap [43]) as Hm. cbn [map app] in Hm. rewrite Hm.
    change (to_ascii_digit dec 43) with 43.
    rewrite (skip_c_space_app _ _ Hpre). exact (Hrun false).
  - pose proof (Hmap [45]) as Hm. cbn [map app] in Hm. rewrite Hm.
    change (to_ascii_digit dec 45) with 45.
    rewrite (skip_c_space_app _ _ Hpre). exact (Hrun true).
Qed.



(** A string holding an ASCII code point that is neither a digit, an
    underscore, a sign nor white space is no integer literal. *)
Lemma int_of_str_foreign dec s c :
  In c s -> (c <? 127) = true -> is_c_space c = false -> is_digit c = false ->
  c <> 95 -> c <> 43 -> c <> 45 ->
  int_of_str dec s = Raise ValueError.
Proof.
  intros Hin Ha Hsp Hd H95 H43 H45.
  destruct (int_of_str dec s) as [z|e] eqn:E;
    [exfalso | f_equal; eapply int_of_str_raises; eassumption].
  unfold int_of_str in E.
  assert (H1 : In c (skip_c_space (map (to_ascii_digit dec) s))).
  { apply skip_c_space_In; [exact Hsp|].
    apply in_map_iff. exists c. split; [|exact Hin].
    unfold to_ascii_digit. rewrite Ha. reflexivity. }
  destruct (skip_c_space (map (to_ascii_digit dec) s)) as [|c0 r] eqn:Et;
    [destruct H1|].
  cbv beta iota in E.
  match type of E with
  | match ?p with _ => _ end = _ => destruct p as [neg t1] eqn:Hsg
  end.
  assert (H2 : In c t1).
  { destruct (N.eqb_spec c0 43) as [->|]; [|destruct (N.eqb_spec c0 45) as [->|]];
      injection Hsg as _ <-; [| |exact H1];
      (destruct H1 as [H1|H1]; [congruence|exact H1]). }
  destruct t1 as [|c1 r1]; [discriminate|].
  destruct (is_digit c1); [|discriminate].
  destruct (int_digits false 0 (c1 :: r1)) as [[z' rest]|] eqn:Ed; [|discriminate].
  apply (int_digits_In c) in Ed; [|exact Hd|exact H95|exact H2].
  destruct (skip_c_space rest) eqn:Es; [|discriminate].
  exact (skip_c_space_nil_In c rest Hsp Es Ed).
Qed.


(** X13.  A duration written as a string of ASCII digits, with or
    without a minus sign in front, becomes the integer it denotes.  (The
    bound on the number of digits is the default limit of the
    interpreter on conversions, beyond which [int] raises.) *)
Theorem digit_string_duration (dec : N -> option N) (m : gmap str json) (ds : list N) :
  ds <> [] -> forallb is_digit ds = true -> (length ds <= 4300)%nat ->
  (m !! u "duration" = Some (JStr ds) ->
     coerce_duration dec m = Ok (digits_value ds))
  /\ (m !! u "duration" = Some (JStr (45 :: ds)) ->
        coerce_duration dec m = Ok (- digits_value ds)%Z).
Proof.
  intros Hne Hd Hlen.
  destruct (int_of_str_literal dec [] ds [] eq_refl eq_refl Hne Hd Hlen) as (H1 & _ & H2).
  cbn [app] in H1, H2. rewrite app_nil_r in H1, H2.
  split; intros Hm; unfold coerce_duration;
    rewrite (dict_get_lookup _ _ _ _ Hm); cbn [py_int]; [rewrite H1 | rewrite H2];
    reflexivity.
Qed.

Lemma digit_string_duration_witness :
  coerce_duration arabic_indic {[ u "duration" := JStr (u "14") ]} = Ok 14%Z.
Proof.
  refine (proj1 (digit_string_duration arabic_indic
                   {[ u "duration" := JStr (u "14") ]} (u "14") _ _ _) _);
    [discriminate | reflexivity | cbn; lia | vm_compute; reflexivity].
Defined.

(** ** The claim on the coercion of the duration *)




(** ** Where a JSON value ends *)

Lemma scan_items_end s items r :
  scan_items s = Some (items, r) -> exists pre, s = pre ++ 34 :: r.
Proof.
  remember (length s) as n eqn:Hn. revert s items r Hn.
  induction n as [n IH] using lt_wf_ind. intros s items r -> H.
  destruct s as [|x s1]; [discriminate|]. cbn [scan_items] in H.
  destruct (N.eqb_spec x 34) as [->|_].
  { injection H as _ <-. exists []. reflexivity. }
  destruct (x =? 92).
  { destruct s1 as [|e s2]; [discriminate|].
    destruct (e =? 117).
    - destruct s2 as [|a [|b [|c2 [|d r2]]]]; try discriminate.
      destruct (hex4 a b c2 d); [|discriminate].
      destruct (scan_items r2) as [[items2 rest]|] eqn:Hr; [|discriminate].
      injection H as _ <-.
      destruct (IH (length r2) ltac:(cbn [length]; lia) _ _ _ eq_refl Hr) as (pre & ->).
      exists (x :: e :: a :: b :: c2 :: d :: pre). reflexivity.
    - destruct (simple_escape e); [|discriminate].
      destruct (scan_items s2) as [[items2 rest]|] eqn:Hr; [|discriminate].
      injection H as _ <-.
      destruct (IH (length s2) ltac:(cbn [length]; lia) _ _ _ eq_refl Hr) as (pre & ->).
      exists (x :: e :: pre). reflexivity. }
  destruct (x <? 32); [discriminate|].
  destruct (scan_items s1) as [[items1 rest]|] eqn:Hr; [|discriminate].
  injection H as _ <-.
  destruct (IH (length s1) ltac:(cbn [length]; lia) _ _ _ eq_refl Hr) as (pre & ->).
  exists (x :: pre). reflexivity.
Qed.

Lemma take_digits_app s ds r :
  take_digits s = (ds, r) -> s = ds ++ r /\ forallb is_digit ds = true.
Proof.
  revert ds r. induction s as [|x s IH]; intros ds r.
  - intros [= <- <-]. auto.
  - rewrite take_digits_cons. destruct (is_digit x) eqn:E.
    + intros [= <- <-]. destruct (take_digits s) as [ds0 r0].
      destruct (IH _ _ eq_refl) as [-> Hd]. cbn [fst snd forallb app].
      rewrite E, Hd. auto.
    + intros [= <- <-]. auto.
Qed.

Lemma digits_end ds :
  ds <> [] -> forallb is_digit ds = true -> ends_with_digit ds.
Proof.
  intros Hne Hd. destruct (exists_last Hne) as (p & x & ->).
  exists p, x. split; [reflexivity|].
  rewrite forallb_app in Hd. apply andb_true_iff in Hd as [_ Hd].
  cbn [forallb] in Hd. apply andb_true_iff in Hd as [Hd _]. exact Hd.
Qed.

Lemma ends_with_digit_app a c : ends_with_digit c -> ends_with_digit (a ++ c).
Proof. intros (p & x & -> & Hx). exists (a ++ p), x. rewrite app_assoc. auto. Qed.

Lemma match_number_end s v r :
  match_number s = Some (v, r) -> exists c, s = c ++ r /\ ends_with_digit c.
Proof.
  unfold match_number.
  destruct (match s with [] => _ | _ => _ end) as [neg s1] eqn:Es.
  assert (H0 : exists sg, s = sg ++ s1).
  { destruct s as [|c s0]; [injection Es as _ <-; exists []; reflexivity|].
    destruct (c =? 45); injection Es as _ <-; [exists [c] | exists []]; reflexivity. }
  destruct H0 as (sg & ->).
  destruct (int_part s1) as [[ids s2]|] eqn:Ei; [|discriminate].
  assert (H1 : s1 = ids ++ s2 /\ ends_with_digit ids).
  { destruct s1 as [|c s0]; [discriminate|]. cbn [int_part] in Ei.
    destruct (c =? 48) eqn:E0.
    - injection Ei as <- <-. split; [reflexivity|]. exists [], c.
      split; [reflexivity | char_facts].
    - destruct (is_digit c) eqn:E1; [|discriminate].
      destruct (take_digits s0) as [ds rest] eqn:Ed. injection Ei as <- <-.
      apply take_digits_app in Ed as [-> Hd]. split; [reflexivity|].
      apply digits_end; [discriminate|]. cbn [forallb]. rewrite E1, Hd. reflexivity. }
  destruct H1 as [-> Hids].
  destruct (frac_part s2) as [fds s3] eqn:Ef.
  assert (H2 : exists c2, s2 = c2 ++ s3 /\ (c2 = [] \/ ends_with_digit c2)).
  { destruct s2 as [|p [|d s0]]; try (injection Ef as _ <-; exists []; auto).
    cbn [frac_part] in Ef. destruct ((p =? 46) && is_digit d) eqn:E.
    - apply andb_true_iff in E as [_ Ed].
      pose proof (take_digits_app _ _ _ Ef) as [Hs Hd].
      exists (p :: fds). rewrite <- app_comm_cons, <- Hs. split; [reflexivity|].
      right. change (p :: fds) with ([p] ++ fds). apply ends_with_digit_app.
      apply digits_end; [|exact Hd].
      intros ->. cbn [app] in Hs. subst s3.
      rewrite take_digits_cons, Ed in Ef. discriminate.
    - injection Ef as _ <-. exists []. auto. }
  destruct H2 as (c2 & -> & Hc2).
  destruct (exp_part s3) as [ex s4] eqn:Ex.
  assert (H3 : exists c3, s3 = c3 ++ s4 /\ (c3 = [] \/ ends_with_digit c3)).
  { destruct s3 as [|e s0]; [injection Ex as _ <-; exists []; auto|].
    cbn [exp_part] in Ex. destruct ((e =? 101) || (e =? 69)).
    - destruct (match s0 with [] => _ | _ => _ end) as [sgn r1] eqn:Esg.
      assert (Hr1 : exists g, s0 = g ++ r1).
      { destruct s0 as [|c t]; [injection Esg as _ <-; exists []; reflexivity|].
        destruct (c =? 45); [injection Esg as _ <-; exists [c]; reflexivity|].
        destruct (c =? 43); injection Esg as _ <-; [exists [c] | exists []]; reflexivity. }
      destruct Hr1 as (g & ->).
      destruct (take_digits r1) as [ds rest] eqn:Ed.
      apply take_digits_app in Ed as [-> Hd].
      destruct ds as [|d0 ds].
      + injection Ex as _ <-. exists []. auto.
      + injection Ex as _ <-. exists (e :: g ++ d0 :: ds).
        split; [cbn [app]; rewrite <- app_assoc; reflexivity|].
        right. change (e :: g ++ d0 :: ds) with ((e :: g) ++ d0 :: ds).
        apply ends_with_digit_app, digits_end; [discriminate | exact Hd].
    - injection Ex as _ <-. exists []. auto. }
  destruct H3 as (c3 & -> & Hc3).
  assert (Hall : exists c, sg ++ ids ++ c2 ++ c3 ++ s4 = c ++ s4 /\ ends_with_digit c).
  { exists (sg ++ ids ++ c2 ++ c3). split; [rewrite <- !app_assoc; reflexivity|].
    apply ends_with_digit_app.
    destruct Hc3 as [->|Hc3].
    - rewrite app_nil_r. destruct Hc2 as [->|Hc2].
      + rewrite app_nil_r. exact Hids.
      + apply ends_with_digit_app, Hc2.
    - rewrite app_assoc. apply ends_with_digit_app, Hc3. }
  destruct fds, ex; intros [= _ <-]; exact Hall.
Qed.

Lemma skip_ws_app s : exists w, s = w ++ skip_ws s /\ forallb is_json_ws w = true.
Proof.
  induction s as [|c s (w & Hw & Hs)]; [exists []; auto|].
  cbn [skip_ws]. destruct (is_json_ws c) eqn:E.
  - exists (c :: w). cbn [app forallb]. rewrite <- Hw, E, Hs. auto.
  - exists []. auto.
Qed.

(** What a scan reads is a piece of the text that ends with the last
    code point of a value; an array is read up to its bracket, the
    members of an object up to its brace. *)
Lemma scan_end fuel :
  (forall s v r, scan_once fuel s = Some (v, r) ->
     exists pre x, s = pre ++ x :: r /\ value_end x = true)
  /\ (forall s vs r, parse_array fuel s = Some (vs, r) ->
        exists pre, s = pre ++ 93 :: r)
  /\ (forall s kvs r, parse_members fuel s = Some (kvs, r) ->
        exists pre, s = pre ++ 125 :: r).
Proof.
  induction fuel as [|n (IHs & IHa & IHm)]; [repeat split; discriminate|].
  repeat apply conj.
  - intros s v r Hs. destruct s as [|c s0]; [discriminate|].
    cbn [scan_once] in Hs.
    destruct (c =? 34).
    { destruct (scanstring s0) as [[x rest]|] eqn:E; [|discriminate].
      injection Hs as _ <-. unfold scanstring in E.
      destruct (scan_items s0) as [[items rest']|] eqn:Ei; [|discriminate].
      injection E as _ <-. apply scan_items_end in Ei as (pre & ->).
      exists (c :: pre), 34. auto. }
    destruct (c =? 123).
    { destruct (skip_ws_app s0) as (w & Hw & _).
      destruct (skip_ws s0) as [|c' r'] eqn:E; [discriminate|].
      destruct (N.eqb_spec c' 125) as [->|_].
      - injection Hs as _ <-. exists (c :: w), 125. rewrite Hw. auto.
      - destruct (parse_members n (c' :: r')) as [[kvs rest]|] eqn:Em; [|discriminate].
        injection Hs as _ <-. apply IHm in Em as (pre & Em).
        exists (c :: w ++ pre), 125. rewrite Hw, Em.
        split; [cbn [app]; rewrite <- app_assoc; reflexivity | reflexivity]. }
    destruct (c =? 91).
    { destruct (skip_ws_app s0) as (w & Hw & _).
      destruct (skip_ws s0) as [|c' r'] eqn:E; [discriminate|].
      destruct (N.eqb_spec c' 93) as [->|_].
      - injection Hs as _ <-. exists (c :: w), 93. rewrite Hw. auto.
      - destruct (parse_array n (c' :: r')) as [[vs rest]|] eqn:Ea; [|discriminate].
        injection Hs as _ <-. apply IHa in Ea as (pre & Ea).
        exists (c :: w ++ pre), 93. rewrite Hw, Ea.
        split; [cbn [app]; rewrite <- app_assoc; reflexivity | reflexivity]. }
    assert (Hnum : forall s1, match_number s1 = Some (v, r) ->
                     exists pre x, s1 = pre ++ x :: r /\ value_end x = true).
    { intros s1 H. apply match_number_end in H as (c1 & -> & p & x & -> & Hx).
      exists p, x. rewrite <- app_assoc. split; [reflexivity|].
      unfold value_end. rewrite Hx. reflexivity. }
    destruct (c =? 110).
    { destruct (strip_prefix (u "ull") s0) as [rest|] eqn:E; [|discriminate].
      injection Hs as _ <-. apply strip_prefix_app in E as ->.
      exists [c; 117; 108], 108. auto. }
    destruct (c =? 116).
    { destruct (strip_prefix (u "rue") s0) as [rest|] eqn:E; [|discriminate].
      injection Hs as _ <-. apply strip_prefix_app in E as ->.
      exists [c; 114; 117], 101. auto. }
    destruct (c =? 102).
    { destruct (strip_prefix (u "alse") s0) as [rest|] eqn:E; [|discriminate].
      injection Hs as _ <-. apply strip_prefix_app in E as ->.
      exists [c; 97; 108; 115], 101. auto. }
    destruct (c =? 78).
    { destruct (strip_prefix (u "aN") s0) as [rest|] eqn:E; [|discriminate].
      injection Hs as _ <-. apply strip_prefix_app in E as ->.
      exists [c; 97], 78. auto. }
    destruct (c =? 73).
    { destruct (strip_prefix (u "nfinity") s0) as [rest|] eqn:E; [|discriminate].
      injection Hs as _ <-. apply strip_prefix_app in E as ->.
      exists [c; 110; 102; 105; 110; 105; 116], 121. auto. }
    destruct (c =? 45); [|apply Hnum, Hs].
    destruct (strip_prefix (u "Infinity") s0) as [rest|] eqn:E; [|apply Hnum, Hs].
    injection Hs as _ <-. apply strip_prefix_app in E as ->.
    exists [c; 73; 110; 102; 105; 110; 105; 116], 121. auto.
  - intros s vs r Hs. cbn [parse_array] in Hs.
    destruct (scan_once n s) as [[v r1]|] eqn:E; [|discriminate].
    apply IHs in E as (pre & x & Es & _).
    destruct (skip_ws_app r1) as (w & Hw & _).
    destruct (skip_ws r1) as [|c r2] eqn:Er; [discriminate|].
    destruct (N.eqb_spec c 93) as [->|_].
    { injection Hs as _ <-. exists (pre ++ x :: w).
      rewrite Es, Hw, <- app_assoc. reflexivity. }
    destruct (N.eqb_spec c 44) as [->|_]; [|discriminate].
    destruct (skip_ws_app r2) as (w2 & Hw2 & _).
    destruct (parse_array n (skip_ws r2)) as [[vs0 rest]|] eqn:Ea; [|discriminate].
    injection Hs as _ <-. apply IHa in Ea as (pre2 & Ea).
    exists (pre ++ x :: w ++ 44 :: w2 ++ pre2).
    rewrite Es, Hw, Hw2, Ea. repeat (rewrite <- ?app_assoc; cbn [app]). reflexivity.
  - intros s kvs r Hs. cbn [parse_members] in Hs.
    destruct s as [|q s0]; [discriminate|].
    destruct (q =? 34); [|discriminate].
    destruct (scanstring s0) as [[key r1]|] eqn:Ek; [|discriminate].
    unfold scanstring in Ek.
    destruct (scan_items s0) as [[items r1']|] eqn:Ei; [|discriminate].
    injection Ek as _ ->. apply scan_items_end in Ei as (p0 & ->).
    destruct (skip_ws_app r1) as (w1 & Hw1 & _).
    destruct (skip_ws r1) as [|c r2] eqn:Er1; [discriminate|].
    destruct (c =? 58); [|discriminate].
    destruct (skip_ws_app r2) as (w2 & Hw2 & _).
    destruct (scan_once n (skip_ws r2)) as [[v r3]|] eqn:Ev; [|discriminate].
    apply IHs in Ev as (p3 & x & Ev & _).
    destruct (skip_ws_app r3) as (w3 & Hw3 & _).
    destruct (skip_ws r3) as [|d r4] eqn:Er3; [discriminate|].
    destruct (N.eqb_spec d 125) as [->|_].
    { injection Hs as _ <-.
      exists (q :: p0 ++ 34 :: w1 ++ c :: w2 ++ p3 ++ x :: w3).
      rewrite Hw1, Hw2, Ev, Hw3. repeat (rewrite <- ?app_assoc; cbn [app]). reflexivity. }
    destruct (N.eqb_spec d 44) as [->|_]; [|discriminate].
    destruct (skip_ws_app r4) as (w4 & Hw4 & _).
    destruct (parse_members n (skip_ws r4)) as [[kvs0 rest]|] eqn:Em; [|discriminate].
    injection Hs as _ <-. apply IHm in Em as (p5 & Em).
    exists (q :: p0 ++ 34 :: w1 ++ c :: w2 ++ p3 ++ x :: w3 ++ 44 :: w4 ++ p5).
    rewrite Hw1, Hw2, Ev, Hw3, Hw4, Em.
    repeat (rewrite <- ?app_assoc; cbn [app]). reflexivity.
Qed.

(** ** The ends of a valid text *)

Lemma last_app_cons (a : str) x l : last (a ++ x :: l) = last (x :: l).
Proof.
  induction a as [|y a IH]; [reflexivity|].
  cbn [app]. destruct (a ++ x :: l) eqn:E; [destruct a; discriminate|].
  rewrite <- IH. reflexivity.
Qed.

Lemma last_json_ws (w : str) y :
  forallb is_json_ws w = true -> last w = Some y -> is_json_ws y = true.
Proof.
  induction w as [|c w IH]; [discriminate|]. cbn [forallb]. intros H.
  apply andb_true_iff in H as [Hc Hw]. destruct w as [|c' w'].
  - intros [= <-]. exact Hc.
  - intros Hl. apply IH; [exact Hw | exact Hl].
Qed.

(** A valid text ends with the last code point of a value or with JSON
    white space, never with a backtick. *)
Lemma json_loads_last s v :
  json_loads s = Ok v -> exists y, last s = Some y /\ y <> 96.
Proof.
  unfold json_loads. intros Hs.
  destruct (scan_once (S (length s)) (skip_ws s)) as [[v0 r]|] eqn:E; [|discriminate].
  destruct (skip_ws r) eqn:Er; [|discriminate].
  destruct (skip_ws_app r) as (w & Hw & Hws). rewrite Er, app_nil_r in Hw. subst w.
  apply (proj1 (scan_end _)) in E as (pre & x & E & Hx).
  destruct (skip_ws_app s) as (w0 & Hw0 & _). rewrite E in Hw0.
  assert (Hl : last s = last (x :: r)).
  { rewrite Hw0, app_assoc. apply last_app_cons. }
  destruct r as [|c r'].
  - exists x. split; [exact Hl|]. intros ->. discriminate.
  - destruct (last (c :: r')) as [y|] eqn:Ey.
    + exists y. split; [rewrite Hl; exact Ey|].
      intros ->. apply (last_json_ws _ _ Hws) in Ey. discriminate.
    + destruct r'; cbn in Ey; [discriminate|].
      apply last_None in Ey. discriminate.
Qed.

Lemma scan_once_backtick fuel r : scan_once fuel (96 :: r) = None.
Proof. destruct fuel; reflexivity. Qed.

(** A valid text starts with JSON white space or with the first code
    point of a value, never with a backtick. *)
Lemma json_loads_head s v :
  json_loads s = Ok v -> exists c r, s = c :: r /\ c <> 96.
Proof.
  unfold json_loads. intros Hs.
  destruct (scan_once (S (length s)) (skip_ws s)) as [[v0 r]|] eqn:E; [|discriminate].
  destruct s as [|c s0]; [discriminate|].
  exists c, s0. split; [reflexivity|]. intros ->.
  change (skip_ws (96 :: s0)) with (96 :: s0) in E.
  rewrite scan_once_backtick in E. discriminate.
Qed.

Lemma startswith_fence_head c r : c <> 96 -> startswith (u "```json") (c :: r) = false.
Proof.
  intros Hc. unfold startswith. change (u "```json") with (96 :: u "``json").
  cbn [strip_prefix]. destruct (N.eqb_spec 96 c); [congruence|reflexivity].
Qed.

Lemma endswith_fence_last s :
  (forall y, last s = Some y -> y <> 96) -> endswith (u "```") s = false.
Proof.
  intros H. unfold endswith, startswith.
  destruct (rev s) as [|y t] eqn:E; [reflexivity|].
  assert (Hl : last s = Some y).
  { rewrite <- (rev_involutive s), E. cbn [rev]. apply last_snoc. }
  change (rev (u "```")) with (96 :: [96; 96]). cbn [strip_prefix].
  destruct (N.eqb_spec 96 y) as [<-|]; [destruct (H 96 Hl); reflexivity | reflexivity].
Qed.

Lemma json_loads_no_fence s v :
  json_loads s = Ok v ->
  startswith (u "```json") s = false /\ endswith (u "```") s = false.
Proof.
  intros H. split.
  - destruct (json_loads_head s v H) as (c & r & -> & Hc).
    apply startswith_fence_head, Hc.
  - destruct (json_loads_last s v H) as (y & Hy & Hn).
    apply endswith_fence_last. intros y' Hy'. congruence.
Qed.

Lemma strip_fences_none text :
  startswith (u "```json") text = false -> endswith (u "```") text = false ->
  strip_fences text = text.
Proof. unfold strip_fences. intros -> ->. reflexivity. Qed.

(** ** [strip] *)

Lemma lstrip_snoc l x : is_space x = false -> lstrip (l ++ [x]) = lstrip l ++ [x].
Proof.
  intros Hx. induction l as [|c l IH]; cbn [app lstrip]; [rewrite Hx; reflexivity|].
  destruct (is_space c); [exact IH | reflexivity].
Qed.

Lemma rstrip_cons x r : is_space x = false -> rstrip (x :: r) = x :: rstrip r.
Proof.
  intros Hx. unfold rstrip. cbn [rev]. rewrite lstrip_snoc by exact Hx.
  rewrite rev_app_distr. reflexivity.
Qed.

Lemma rstrip_idem s : rstrip (rstrip s) = rstrip s.
Proof. unfold rstrip. rewrite rev_involutive, lstrip_idem. reflexivity. Qed.

Lemma lstrip_head s : lstrip s = [] \/ exists x r, lstrip s = x :: r /\ is_space x = false.
Proof.
  induction s as [|c s IH]; [left; reflexivity|]. cbn [lstrip].
  destruct (is_space c) eqn:E; [exact IH | right; eauto].
Qed.

Lemma lstrip_nonspace x r : is_space x = false -> lstrip (x :: r) = x :: r.
Proof. intros Hx. cbn [lstrip]. rewrite Hx. reflexivity. Qed.

Lemma strip_idem s : strip (strip s) = strip s.
Proof.
  unfold strip. destruct (lstrip_head s) as [->|(x & r & -> & Hx)]; [reflexivity|].
  rewrite rstrip_cons by exact Hx. rewrite lstrip_nonspace by exact Hx.
  rewrite <- rstrip_cons by exact Hx. apply rstrip_idem.
Qed.

(** X14.  The cleaned text, which is the [extracted_text] of the reply,
    never starts or ends with white space: stripping it again changes
    nothing. *)
Theorem clean_text_stripped (text : str) : strip (clean_text text) = clean_text text.
Proof. unfold clean_text, cleanup_commas. apply strip_idem. Qed.

(** ** The cleanup only deletes *)

Lemma infix_sublist (a b : str) : infix_of a b -> a `sublist_of` b.
Proof.
  intros (x & y & ->). apply sublist_inserts_l, sublist_inserts_r. reflexivity.
Qed.

Lemma drop_commas_sublist c s : drop_commas c s `sublist_of` s.
Proof.
  induction s as [|x r IH]; [constructor|]. rewrite drop_commas_cons.
  destruct ((x =? 44) && head_is c r); [apply sublist_cons, IH | apply sublist_skip, IH].
Qed.

(** X15.  The cleanup never adds or reorders a code point: the cleaned
    text is a subsequence of the text of the model, so it is never
    longer. *)
Theorem clean_text_sublist (text : str) :
  clean_text text `sublist_of` text
  /\ (length (clean_text text) <= length text)%nat.
Proof.
  assert (H : clean_text text `sublist_of` text).
  { unfold clean_text. rewrite cleanup_commas_eq.
    etransitivity; [apply infix_sublist, strip_infix|].
    etransitivity; [apply drop_commas_sublist|].
    etransitivity; [apply drop_commas_sublist|].
    apply infix_sublist, strip_fences_infix. }
  split; [exact H | apply sublist_length, H].
Qed.

(** X16.  A text without fence at either end, without a comma
    immediately before a closer and without white space around it goes
    through the cleanup unchanged. *)
Theorem clean_text_identity (text : str) :
  startswith (u "```json") text = false ->
  endswith (u "```") text = false ->
  comma_before_closer text = false ->
  strip text = text ->
  clean_text text = text.
Proof.
  intros Hs He Hc Ht. unfold clean_text. rewrite (strip_fences_none _ Hs He).
  unfold comma_before_closer in Hc. apply orb_false_iff in Hc as [H1 H2].
  rewrite cleanup_commas_eq, (drop_commas_none 93 _ H1), (drop_commas_none 125 _ H2).
  exact Ht.
Qed.

Lemma clean_text_identity_witness :
  clean_text (j "[{'name': 'Ibuprofen', 'meal': 'after meal'}]")
  = j "[{'name': 'Ibuprofen', 'meal': 'after meal'}]".
Proof. apply clean_text_identity; vm_compute; reflexivity. Defined.

(** ** Valid replies *)

(** What the decoder gets when the fences are gone and the payload is
    valid. *)
Lemma clean_payload text payload v :
  json_loads payload = Ok v ->
  strip_fences text = strip payload ->
  (exists v', json_loads (clean_text text) = Ok v')
  /\ (comma_before_closer payload = false -> json_loads (clean_text text) = Ok v).
Proof.
  intros H Hf. unfold clean_text. rewrite Hf.
  pose proof (json_loads_strip _ _ H) as Hs. split.
  - eapply json_loads_cleanup, Hs.
  - intros Hn. apply json_loads_cleanup_same; [|exact Hs].
    unfold comma_before_closer in *. apply orb_false_iff in Hn as [H1 H2].
    apply orb_false_iff. split.
    + destruct (adjacent 44 93 (strip payload)) eqn:E; [|reflexivity].
      rewrite <- H1. symmetry. eapply adjacent_infix; [apply strip_infix | exact E].
    + destruct (adjacent 44 125 (strip payload)) eqn:E; [|reflexivity].
      rewrite <- H2. symmetry. eapply adjacent_infix; [apply strip_infix | exact E].
Qed.

(** X17.  The cleanup never spoils a valid reply: a text that
    [json.loads] accepts is still accepted after the cleanup, and it
    decodes to the same value when it has no comma immediately before a
    closer (the cleaned text is then the text, stripped). *)
Theorem valid_reply_stays_valid (text : str) (v : json) :
  json_loads text = Ok v ->
  (exists v', json_loads (clean_text text) = Ok v')
  /\ (comma_before_closer text = false ->
        clean_text text = strip text /\ json_loads (clean_text text) = Ok v).
Proof.
  intros H. destruct (json_loads_no_fence text v H) as [Hs He].
  pose proof (strip_fences_none _ Hs He) as Hf. split.
  - unfold clean_text. rewrite Hf. eapply json_loads_cleanup, H.
  - intros Hc.
    assert (Ht : clean_text text = strip text).
    { unfold clean_text. rewrite Hf. unfold comma_before_closer in Hc.
      apply orb_false_iff in Hc as [H1 H2].
      rewrite cleanup_commas_eq, (drop_commas_none 93 _ H1), (drop_commas_none 125 _ H2).
      reflexivity. }
    split; [exact Ht|]. rewrite Ht. apply json_loads_strip, H.
Qed.

Lemma valid_reply_stays_valid_witness :
  exists v', json_loads (clean_text (j " [{'name': 'a,]b'}] ")) = Ok v'.
Proof.
  refine (proj1 (valid_reply_stays_valid (j " [{'name': 'a,]b'}] ") _ _)).
  vm_compute. reflexivity.
Defined.

(** X18.  A fence on one side only is removed as well: with a valid
    payload after an opening fence alone, or before a closing fence
    alone, what is left is the payload, stripped, and it is decoded. *)
Theorem single_fence_is_removed (payload : str) (v : json) :
  json_loads payload = Ok v ->
  strip_fences (u "```json" ++ payload) = strip payload
  /\ strip_fences (payload ++ u "```") = strip payload
  /\ (exists v', json_loads (clean_text (u "```json" ++ payload)) = Ok v')
  /\ (exists v', json_loads (clean_text (payload ++ u "```")) = Ok v').
Proof.
  intros H.
  assert (H1 : strip_fences (u "```json" ++ payload) = strip payload).
  { unfold strip_fences. rewrite startswith_app.
    change (u "```json") with (96 :: u "``json").
    rewrite replace_first_prefix. cbn [app].
    destruct (json_loads_no_fence _ _ (json_loads_strip _ _ H)) as [_ ->].
    reflexivity. }
  assert (H2 : strip_fences (payload ++ u "```") = strip payload).
  { unfold strip_fences.
    destruct (json_loads_head _ _ H) as (c & r & -> & Hc).
    cbn [app]. rewrite (startswith_fence_head c _ Hc).
    change (c :: r ++ u "```") with ((c :: r) ++ u "```").
    assert (He : endswith (u "```") ((c :: r) ++ u "```") = true).
    { unfold endswith. rewrite rev_app_distr. apply startswith_app. }
    rewrite He. unfold drop_last. rewrite length_app.
    change (length (u "```")) with 3%nat.
    replace (length (c :: r) + 3 - 3)%nat with (length (c :: r)) by lia.
    rewrite take_app_length. reflexivity. }
  repeat apply conj; [exact H1 | exact H2 | |].
  - exact (proj1 (clean_payload _ _ _ H H1)).
  - exact (proj1 (clean_payload _ _ _ H H2)).
Qed.

Lemma single_fence_is_removed_witness :
  strip_fences (u "```json" ++ j " {'name': 'X'} ") = j "{'name': 'X'}".
Proof.
  refine (proj1 (single_fence_is_removed (j " {'name': 'X'} ") _ _)).
  vm_compute. reflexivity.
Defined.

(** ** Repair of a trailing comma *)

Lemma drop_commas_inserted c a b :
  c <> 44 -> adjacent 44 c (a ++ c :: b) = false ->
  drop_commas c (a ++ 44 :: c :: b) = a ++ c :: b.
Proof.
  intros Hc. induction a as [|x a IH]; cbn [app]; intros H.
  - rewrite drop_commas_cons. cbn [head_is andb]. rewrite !N.eqb_refl. cbn [andb].
    apply drop_commas_none, H.
  - cbn [adjacent] in H. apply orb_false_iff in H as [Hx Ha].
    rewrite drop_commas_cons, (IH Ha).
    assert (Hh : (x =? 44) && head_is c (a ++ 44 :: c :: b) = false).
    { destruct a as [|y a']; [|exact Hx]. cbn [app head_is].
      destruct (N.eqb_spec 44 c); [congruence|]. apply andb_false_r. }
    rewrite Hh. reflexivity.
Qed.

Lemma adjacent_inserted c' c a b :
  c' <> 44 -> c' <> c -> adjacent 44 c' (a ++ c :: b) = false ->
  adjacent 44 c' (a ++ 44 :: c :: b) = false.
Proof.
  intros H4 Hc. induction a as [|x a IH]; cbn [app]; intros H.
  - change (adjacent 44 c' (44 :: c :: b))
      with ((44 =? 44) && head_is c' (c :: b) || adjacent 44 c' (c :: b)).
    rewrite H, orb_false_r. cbn [head_is].
    destruct (N.eqb_spec c c'); [congruence|]. apply andb_false_r.
  - cbn [adjacent] in *. apply orb_false_iff in H as [Hx Ha].
    rewrite (IH Ha), orb_false_r.
    destruct a as [|y a']; [|exact Hx]. cbn [app head_is].
    destruct (N.eqb_spec 44 c'); [congruence|]. apply andb_false_r.
Qed.

Lemma cleanup_inserted c a b :
  is_closer c = true -> comma_before_closer (a ++ c :: b) = false ->
  drop_commas 125 (drop_commas 93 (a ++ 44 :: c :: b)) = a ++ c :: b.
Proof.
  unfold is_closer, comma_before_closer. intros Hc Hn.
  apply orb_false_iff in Hn as [H1 H2]. apply orb_true_iff in Hc as [Hc|Hc];
    apply N.eqb_eq in Hc; subst c.
  - rewrite (drop_commas_inserted 93) by (discriminate || exact H1).
    apply drop_commas_none, H2.
  - rewrite (drop_commas_none 93).
    + apply (drop_commas_inserted 125); [discriminate | exact H2].
    + apply adjacent_inserted; [discriminate | discriminate | exact H1].
Qed.

(** X19.  The cleanup repairs a trailing comma: when a text would be
    valid JSON without one comma that stands immediately before a
    closing bracket or brace, and the valid text has no comma before a
    closer, the cleaned text is the valid text, stripped, and it decodes
    to the value of the valid text. *)
Theorem trailing_comma_is_repaired (a b : str) (c : N) (v : json) :
  is_closer c = true ->
  json_loads (a ++ c :: b) = Ok v ->
  comma_before_closer (a ++ c :: b) = false ->
  clean_text (a ++ 44 :: c :: b) = strip (a ++ c :: b)
  /\ json_loads (clean_text (a ++ 44 :: c :: b)) = Ok v.
Proof.
  intros Hc Hv Hn.
  assert (Hs : startswith (u "```json") (a ++ 44 :: c :: b) = false).
  { destruct a as [|x a']; [reflexivity|].
    destruct (json_loads_head _ _ Hv) as (x' & r & E & Hx). cbn [app] in E.
    injection E as <- _. apply startswith_fence_head, Hx. }
  assert (He : endswith (u "```") (a ++ 44 :: c :: b) = false).
  { apply endswith_fence_last. intros y Hy.
    destruct (json_loads_last _ _ Hv) as (y' & Hy' & Hne).
    rewrite last_app_cons in Hy, Hy'.
    change (last (44 :: c :: b)) with (last (c :: b)) in Hy. congruence. }
  assert (Ht : clean_text (a ++ 44 :: c :: b) = strip (a ++ c :: b)).
  { unfold clean_text. rewrite (strip_fences_none _ Hs He), cleanup_commas_eq.
    rewrite (cleanup_inserted c a b Hc Hn). reflexivity. }
  split; [exact Ht|]. rewrite Ht. apply json_loads_strip, Hv.
Qed.

Lemma trailing_comma_is_repaired_witness :
  clean_text (j "[{'name': 'Ibuprofen'},]") = j "[{'name': 'Ibuprofen'}]".
Proof.
  refine (proj1 (trailing_comma_is_repaired (j "[{'name': 'Ibuprofen'}") [] 93
                   (JList [JDict {[ u "name" := JStr (u "Ibuprofen") ]}]) _ _ _));
    vm_compute; reflexivity.
Defined.

(** ** Replies that are not decoded *)

Lemma backtick_start_take n s : backtick_start s -> backtick_start (take n s).
Proof. destruct s, n; cbn; auto. Qed.

Lemma backtick_start_strip s : backtick_start s -> backtick_start (strip s).
Proof.
  destruct s as [|x r]; [intros _; exact I|]. cbn [backtick_start]. intros ->.
  unfold strip. rewrite lstrip_nonspace by reflexivity.
  rewrite rstrip_cons by reflexivity. reflexivity.
Qed.

Lemma backtick_start_drop_commas c s : backtick_start s -> backtick_start (drop_commas c s).
Proof.
  destruct s as [|x r]; [intros _; exact I|]. cbn [backtick_start]. intros ->.
  rewrite drop_commas_cons. reflexivity.
Qed.

Lemma backtick_start_raises s : backtick_start s -> json_loads s = Raise JSONDecodeError.
Proof.
  destruct s as [|x r]; [reflexivity|]. cbn [backtick_start]. intros ->.
  unfold json_loads. change (skip_ws (96 :: r)) with (96 :: r).
  rewrite scan_once_backtick. reflexivity.
Qed.

(** X20.  Only the fence [```json] is removed at the start: a reply that
    begins with a backtick without beginning with [```json] (a bare
    fence, or a fence with another tag), like an empty reply, is never
    decoded, and the list of medicines is empty. *)
Theorem other_fence_is_empty_list (text : str) :
  backtick_start text ->
  startswith (u "```json") text = false ->
  json_loads (clean_text text) = Raise JSONDecodeError
  /\ parse_reply text = Ok (clean_text text, []).
Proof.
  intros Hb Hs.
  assert (H : json_loads (clean_text text) = Raise JSONDecodeError).
  { apply backtick_start_raises. unfold clean_text. rewrite cleanup_commas_eq.
    apply backtick_start_strip. do 2 apply backtick_start_drop_commas.
    unfold strip_fences. rewrite Hs.
    destruct (endswith _ text); [|exact Hb].
    apply backtick_start_strip, backtick_start_take, Hb. }
  split; [exact H|]. unfold parse_reply. rewrite H. reflexivity.
Qed.

Lemma other_fence_is_empty_list_witness :
  parse_reply (j "```[{'name': 'Ibuprofen'}]```")
  = Ok (j "```[{'name': 'Ibuprofen'}]", []).
Proof.
  refine (proj2 (other_fence_is_empty_list (j "```[{'name': 'Ibuprofen'}]```") _ _)).
  - reflexivity.
  - vm_compute. reflexivity.
Defined.

(** X21.  A duration written with a unit or in words ([7 days],
    [one week]), that is any string holding an ASCII letter, is refused
    by [int] and becomes -1. *)
Theorem duration_with_letter (dec : N -> option N) (m : gmap str json) (s : str) (c : N) :
  m !! u "duration" = Some (JStr s) ->
  In c s -> is_letter c = true ->
  int_of_str dec s = Raise ValueError
  /\ coerce_duration dec m = Ok (-1)%Z
  /\ normalize_record dec m = Ok (normalized m (-1)).
Proof.
  intros Hm Hin Hc.
  assert (H : int_of_str dec s = Raise ValueError).
  { apply (int_of_str_foreign dec s c Hin); unfold is_letter, is_c_space in *;
      char_facts. }
  assert (Hd : coerce_duration dec m = Ok (-1)%Z).
  { unfold coerce_duration. rewrite (dict_get_lookup _ _ _ _ Hm). cbn [py_int].
    rewrite H. reflexivity. }
  repeat apply conj; [exact H | exact Hd |].
  rewrite normalize_record_eq, Hd. reflexivity.
Qed.

Lemma duration_with_letter_witness :
  coerce_duration arabic_indic {[ u "duration" := JStr (u "7 days") ]} = Ok (-1)%Z.
Proof.
  refine (proj1 (proj2 (duration_with_letter arabic_indic
                          {[ u "duration" := JStr (u "7 days") ]} (u "7 days") 100 _ _ _))).
  - reflexivity.
  - vm_compute. tauto.
  - reflexivity.
Defined.

(** * The handler with its output: properties *)

Section OutputFacts.

Variable host : Host.

Local Abbreviation run_print := (print host).
Local Abbreviation run_parse := (parse_reply_logged host).

Lemma only_prints_refl (w : World) : only_prints w w.
Proof. split; [reflexivity | exists []; symmetry; apply app_nil_r]. Qed.

Lemma only_prints_trans (w1 w2 w3 : World) :
  only_prints w1 w2 -> only_prints w2 w3 -> only_prints w1 w3.
Proof.
  intros [H1 (l1 & E1)] [H2 (l2 & E2)]. split; [congruence|].
  exists (l1 ++ l2). rewrite E2, E1, app_assoc. reflexivity.
Qed.

Lemma only_prints_line (w : World) (line : str) : only_prints w (with_line w line).
Proof. split; [reflexivity | exists [line]; reflexivity]. Qed.

(** The two ways [print] ends. *)
Lemma print_cases (line : str) (w : World) :
  (stdout host line = None /\ run_print line w = (Returns tt, with_line w line))
  \/ (exists e, stdout host line = Some e /\ run_print line w = (Raises e, w)).
Proof.
  unfold print, with_line. destruct (stdout host line) as [e|]; [right; eauto | left; auto].
Qed.

Lemma print_only_prints (line : str) (w w' : World) (r : outcome unit) :
  run_print line w = (r, w') -> only_prints w w'.
Proof.
  destruct (print_cases line w) as [[_ E]|(e & _ & E)]; rewrite E; intros [= _ <-];
    [apply only_prints_line | apply only_prints_refl].
Qed.

(** A failing [print] raises the exception of the stream. *)
Lemma print_raises (line : str) (w w' : World) (e : Failure) :
  run_print line w = (Raises e, w') -> stdout host line = Some e /\ w' = w.
Proof.
  destruct (print_cases line w) as [[_ E]|(e' & Hs & E)]; rewrite E; [discriminate|].
  intros [= -> <-]. auto.
Qed.

Lemma bind_run {A B : Type} (m : io A) (f : A -> io B) (w : World) :
  (m ≫= f) w
  = match m w with
    | (Returns a, w') => f a w'
    | (Raises e, w') => (Raises e, w')
    end.
Proof. reflexivity. Qed.

(** The two ways the outer [except] ends: with the generic reply, or
    with the exception of its own [print]. *)
Lemma server_error_cases (e : Failure) (w : World) :
  let line := u "Server error: " ++ message e in
  (stdout host line = None
   /\ server_error host e w = (Returns internal_error, with_line w line))
  \/ (exists e', stdout host line = Some e' /\ server_error host e w = (Raises e', w)).
Proof.
  cbv zeta. unfold server_error. rewrite bind_run.
  destruct (print_cases (u "Server error: " ++ message e) w) as [[Hs E]|(e' & Hs & E)];
    rewrite E; [left | right; exists e']; split; auto.
Qed.

(** The fallback of line 122-123 on a scalar. *)
Lemma parse_body_scalar (t : str) (v : json) (shown : str) (w : World) :
  decoder_limit host t = None -> json_loads t = Ok v -> scalar_str (float_repr host) v shown ->
  let line := u "Gemini returned non-list, non-dict JSON: " ++ shown in
  parse_body host t w
  = match stdout host line with
    | None => (Returns (t, []), with_line w line)
    | Some e => (Raises e, w)
    end.
Proof.
  intros Hlim Hj Hv. cbv zeta. unfold parse_body, decode. rewrite Hlim, Hj, bind_run.
  unfold pure at 1. 
  assert (Hp : forall line : str,
            (_ ← run_print line; mret (t, @nil json)) w
            = match stdout host line with
              | None => (Returns (t, []), with_line w line)
              | Some e => (Raises e, w)
              end).
  { intros line. rewrite bind_run.
    destruct (print_cases line w) as [[Hs E]|(e & Hs & E)]; rewrite E, Hs; reflexivity. }
  destruct Hv as [|b|z Hz|f|s]; rewrite bind_run; unfold pure; try apply Hp.
  unfold str_of_int, int_max_str_digits.
  destruct (Nat.ltb_spec 4300 (length (decimal (Z.abs z)))); [lia|]. apply Hp.
Qed.

(** The inner [try] only prints, and what it returns carries the text
    it was given. *)
Lemma parse_body_only_prints (t : str) (w w' : World) (r : outcome (str * list json)) :
  parse_body host t w = (r, w') ->
  only_prints w w' /\ (forall t' d, r = Returns (t', d) -> t' = t).
Proof.
  unfold parse_body. rewrite bind_run. unfold pure at 1, decode.
  assert (Hp : forall shown : outcome str,
            (s ← pure shown;
             _ ← run_print (u "Gemini returned non-list, non-dict JSON: " ++ s);
             mret (t, @nil json)) w = (r, w') ->
            only_prints w w' /\ (forall t' d, r = Returns (t', d) -> t' = t)).
  { intros shown. rewrite bind_run. unfold pure.
    destruct shown as [s|e].
    - rewrite bind_run.
      destruct (print_cases (u "Gemini returned non-list, non-dict JSON: " ++ s) w)
        as [[_ E]|(e & _ & E)]; rewrite E; intros [= <- <-].
      + split; [apply only_prints_line|]. intros t' d [= <- _]. reflexivity.
      + split; [apply only_prints_refl | discriminate].
    - intros [= <- <-]. split; [apply only_prints_refl | discriminate]. }
  destruct (decoder_limit host t) as [e|];
    [intros [= <- <-]; split; [apply only_prints_refl | discriminate]|].
  destruct (json_loads t) as [v|e].
  - destruct v as [|b|z|f|s|l|m]; try apply Hp;
      intros [= <- <-]; (split; [apply only_prints_refl|]); intros t' d [= <- _];
      reflexivity.
  - intros [= <- <-]. split; [apply only_prints_refl | discriminate].
Qed.

Lemma decode_failed_only_prints (t : str) (e : Failure) (w w' : World)
    (r : outcome (str * list json)) :
  decode_failed host t e w = (r, w') ->
  only_prints w w' /\ (forall t' d, r = Returns (t', d) -> t' = t).
Proof.
  unfold decode_failed. rewrite bind_run.
  destruct (print_cases (u "Error decoding JSON from Gemini: " ++ message e) w)
    as [[_ E]|(e1 & _ & E)]; rewrite E.
  - rewrite bind_run.
    destruct (print_cases (u "Malformed JSON string that caused error: '" ++ t ++ u "'")
                (with_line w (u "Error decoding JSON from Gemini: " ++ message e)))
      as [[_ E2]|(e2 & _ & E2)]; rewrite E2; intros [= <- <-].
    + split; [|intros t' d [= <- _]; reflexivity].
      eapply only_prints_trans; apply only_prints_line.
    + split; [apply only_prints_line | discriminate].
  - intros [= <- <-]. split; [apply only_prints_refl | discriminate].
Qed.

Lemma parse_reply_only_prints (text : str) (w w' : World) (r : outcome (str * list json)) :
  run_parse text w = (r, w') ->
  only_prints w w' /\ (forall t d, r = Returns (t, d) -> t = clean_text text).
Proof.
  unfold parse_reply_logged, try_except.
  destruct (parse_body host (clean_text text) w) as [rb wb] eqn:Eb.
  destruct (parse_body_only_prints _ _ _ _ Eb) as [Hw Ht].
  destruct rb as [a|e].
  - intros [= <- <-]. auto.
  - destruct (is_decode_error e).
    + intros Eh. destruct (decode_failed_only_prints _ _ _ _ _ Eh) as [Hw' Ht'].
      split; [eapply only_prints_trans; eassumption | exact Ht'].
    + intros [= <- <-]. split; [exact Hw | discriminate].
Qed.

(** The body of the outer [try]: one call of the model, then only
    lines printed; when it returns, the reply is a 200 that carries the
    cleaned text of the model's reply. *)
Lemma upload_body_run (f : FileStorage) (w w' : World) (r : outcome Response) :
  upload_body host f w = (r, w') ->
  only_prints (with_call w (mimetype f, content f)) w'
  /\ (forall resp, r = Returns resp ->
        exists raw details,
          generate_content host (mimetype f, content f) = Returns raw
          /\ resp = {| status := 200;
                       body := success_body (clean_text (strip raw)) details |}).
Proof.
  unfold upload_body. rewrite bind_run. unfold call_model at 1.
  fold (with_call w (mimetype f, content f)). set (w1 := with_call w _).
  destruct (generate_content host (mimetype f, content f)) as [raw|e].
  - rewrite bind_run.
    destruct (print_cases (u "Gemini raw response: " ++ strip raw) w1)
      as [[_ E]|(e & _ & E)]; rewrite E.
    + rewrite bind_run.
      destruct (run_parse (strip raw) (with_line w1 (u "Gemini raw response: " ++ strip raw)))
        as [rp wp] eqn:Ep.
      destruct (parse_reply_only_prints _ _ _ _ Ep) as [Hw Ht].
      assert (Hw1 : only_prints w1 wp)
        by (eapply only_prints_trans; [apply only_prints_line | exact Hw]).
      destruct rp as [[t details]|e].
      * rewrite bind_run. unfold pure.
        destruct (normalize_all host details) as [details'|e]; intros [= <- <-].
        -- split; [exact Hw1|]. intros resp [= <-]. exists raw, details'.
           rewrite (Ht t details eq_refl). auto.
        -- split; [exact Hw1 | discriminate].
      * intros [= <- <-]. split; [exact Hw1 | discriminate].
    + intros [= <- <-]. split; [apply only_prints_refl | discriminate].
  - intros [= <- <-]. split; [apply only_prints_refl | discriminate].
Qed.

End OutputFacts.

(** X2.  When the call of the model raises, the handler prints the
    message of the exception after [Server error: ] and answers with
    the generic 500, which carries nothing of the exception; when that
    [print] itself raises, its exception leaves the handler and no reply
    is returned.  The model has been called once. *)
Theorem model_failure_is_500 (host : Host)
    (files : Files) (f : FileStorage) (e : Failure) (w : World) :
  files_get (u "image") files = Some f ->
  filename f <> [] ->
  generate_content host (mimetype f, content f) = Raises e ->
  let w1 := with_call w (mimetype f, content f) in
  let line := u "Server error: " ++ message e in
  (stdout host line = None ->
     process_image_logged host files w
     = (Returns internal_error, with_line w1 line))
  /\ (forall e', stdout host line = Some e' ->
        process_image_logged host files w
        = (Raises e', w1)).
Proof.
  intros Hf Hn Hg. cbv zeta.
  assert (E : process_image_logged host files w
              = server_error host e (with_call w (mimetype f, content f))).
  { unfold process_image_logged. rewrite Hf.
    destruct (filename f) as [|c r]; [congruence|].
    unfold process_upload_logged, try_except, upload_body. rewrite bind_run.
    unfold call_model at 1. rewrite Hg. reflexivity. }
  rewrite E.
  destruct (server_error_cases host e (with_call w (mimetype f, content f)))
    as [[Hs ->]|(e1 & Hs & ->)]; cbv zeta in Hs; split; intros; congruence.
Qed.

Lemma model_failure_is_500_witness :
  process_image_logged
    (utf8_host (Raises {| kind := OtherError; message := [55357] |}))
    sample_upload no_effects
  = (Raises {| kind := ValueError;
               message := u "'utf-8' codec can't encode character: surrogates not allowed" |},
     with_call no_effects (u "image/png", [137; 80; 78; 71])).
Proof.
  refine (proj2 (model_failure_is_500
                   (utf8_host (Raises {| kind := OtherError; message := [55357] |}))
                   sample_upload
                   {| filename := u "rx.png"; mimetype := u "image/png";
                      content := [137; 80; 78; 71] |}
                   {| kind := OtherError; message := [55357] |} no_effects _ _ _) _ _);
    [reflexivity | discriminate | reflexivity | vm_compute; reflexivity].
Defined.

(** X5.  A reply that is JSON but neither an array nor an object (a
    number, a string, a boolean, [null]) is printed; when the two lines
    printed on the way are written, the answer is a 200 with an empty
    list of medicines, and when the line that shows the value cannot be
    written (a string with a lone surrogate on a UTF-8 stream), the
    exception reaches the outer [except] and the answer is the generic
    500. *)
Theorem scalar_reply_is_empty_list (host : Host)
    (files : Files) (f : FileStorage) (raw : str) (v : json) (shown : str) (w : World) :
  files_get (u "image") files = Some f ->
  filename f <> [] ->
  generate_content host (mimetype f, content f) = Returns raw ->
  stdout host (u "Gemini raw response: " ++ strip raw) = None ->
  decoder_limit host (clean_text (strip raw)) = None ->
  json_loads (clean_text (strip raw)) = Ok v ->
  scalar_str (float_repr host) v shown ->
  let w2 := with_line (with_call w (mimetype f, content f))
              (u "Gemini raw response: " ++ strip raw) in
  let line := u "Gemini returned non-list, non-dict JSON: " ++ shown in
  (stdout host line = None ->
     process_image_logged host files w
     = (Returns {| status := 200; body := success_body (clean_text (strip raw)) [] |},
        with_line w2 line))
  /\ (forall e, stdout host line = Some e -> is_decode_error e = false ->
        stdout host (u "Server error: " ++ message e) = None ->
        process_image_logged host files w
        = (Returns internal_error, with_line w2 (u "Server error: " ++ message e))).
Proof.
  intros Hf Hn Hg Hraw Hlim Hj Hv. cbv zeta.
  set (w1 := with_call w (mimetype f, content f)).
  set (w2 := with_line w1 (u "Gemini raw response: " ++ strip raw)).
  assert (Hb : upload_body host f w
               = (x ← parse_reply_logged host (strip raw);
                  let '(text', details) := x in
                  details' ← pure (normalize_all host details);
                  mret {| status := 200; body := success_body text' details' |}) w2).
  { unfold upload_body. rewrite bind_run. unfold call_model at 1. rewrite Hg.
    fold (with_call w (mimetype f, content f)). fold w1. rewrite bind_run.
    destruct (print_cases host (u "Gemini raw response: " ++ strip raw) w1)
      as [[_ E]|(e & He & _)]; [|congruence].
    rewrite E. reflexivity. }
  assert (Hp : parse_reply_logged host (strip raw) w2
               = match stdout host (u "Gemini returned non-list, non-dict JSON: " ++ shown) with
                 | None =>
                     (Returns (clean_text (strip raw), []),
                      with_line w2 (u "Gemini returned non-list, non-dict JSON: " ++ shown))
                 | Some e =>
                     if is_decode_error e
                     then decode_failed host (clean_text (strip raw)) e w2
                     else (Raises e, w2)
                 end).
  { unfold parse_reply_logged, try_except.
    rewrite (parse_body_scalar host _ v shown w2 Hlim Hj Hv).
    destruct (stdout host (u "Gemini returned non-list, non-dict JSON: " ++ shown));
      reflexivity. }
  assert (Hr : process_image_logged host files w
               = process_upload_logged host f w).
  { unfold process_image_logged. rewrite Hf. destruct (filename f); [congruence|reflexivity]. }
  rewrite Hr. unfold process_upload_logged, try_except. rewrite Hb, bind_run, Hp.
  split.
  - intros ->. reflexivity.
  - intros e -> -> Hs.
    destruct (server_error_cases host e w2) as [[_ ->]|(e1 & Hs' & _)];
      [reflexivity | cbv zeta in Hs'; congruence].
Qed.

Lemma scalar_reply_is_empty_list_witness :
  process_image_logged (utf8_host (Returns (j "'\ud83d'"))) sample_upload no_effects
  = (Returns internal_error,
     {| calls := [(u "image/png", [137; 80; 78; 71])];
        printed := [u "Gemini raw response: " ++ j "'\ud83d'";
                    u "Server error: 'utf-8' codec can't encode character: surrogates not allowed"] |}).
Proof.
  refine (proj2 (scalar_reply_is_empty_list (utf8_host (Returns (j "'\ud83d'")))
                   sample_upload
                   {| filename := u "rx.png"; mimetype := u "image/png";
                      content := [137; 80; 78; 71] |}
                   (j "'\ud83d'") (JStr [55357]) [55357] no_effects _ _ _ _ _ _ _)
                {| kind := ValueError;
                   message := u "'utf-8' codec can't encode character: surrogates not allowed" |}
                _ _ _);
    [reflexivity | discriminate | reflexivity | vm_compute; reflexivity
    | reflexivity | vm_compute; reflexivity | apply str_str | vm_compute; reflexivity
    | reflexivity | vm_compute; reflexivity].
Defined.

(** X3.  The runs of the handler, exhaustively.  Without an accepted
    upload it answers 400 and touches nothing: no call of the model, no
    line printed.  Otherwise it calls the model exactly once, with the
    MIME type and the bytes of the upload, and apart from that only
    prints; it ends with the generic 500, or with a 200 whose
    [extracted_text] is the cleaned text of the model's reply, or it
    raises, and this only with the exception of the [print] of its own
    [except] block. *)
Theorem response_cases (host : Host) (files : Files) (w : World) :
  (files_get (u "image") files = None ->
     process_image_logged host files w
     = (Returns {| status := 400; body := error_body "No image file provided" |}, w))
  /\ (forall f, files_get (u "image") files = Some f -> filename f = [] ->
        process_image_logged host files w
        = (Returns {| status := 400; body := error_body "No selected image file" |}, w))
  /\ (forall f, files_get (u "image") files = Some f -> filename f <> [] ->
        exists r w',
          process_image_logged host files w
          = (r, w')
          /\ calls w' = calls w ++ [(mimetype f, content f)]
          /\ (exists lines, printed w' = printed w ++ lines)
          /\ (r = Returns internal_error
              \/ (exists raw details,
                    generate_content host (mimetype f, content f) = Returns raw
                    /\ r = Returns {| status := 200;
                                      body := success_body (clean_text (strip raw)) details |})
              \/ (exists e cause,
                    r = Raises e
                    /\ stdout host (u "Server error: " ++ message cause) = Some e))).
Proof.
  repeat apply conj.
  - intros Hf. unfold process_image_logged. rewrite Hf. reflexivity.
  - intros f Hf Hn. unfold process_image_logged. rewrite Hf, Hn. reflexivity.
  - intros f Hf Hn.
    assert (Hr : process_image_logged host files w = process_upload_logged host f w).
    { unfold process_image_logged. rewrite Hf. destruct (filename f); [congruence|reflexivity]. }
    rewrite Hr. unfold process_upload_logged, try_except.
    destruct (upload_body host f w)
      as [rb wb] eqn:Eb.
    destruct (upload_body_run _ _ _ _ _ Eb) as [[Hc Hl] Hret].
    destruct rb as [resp|cause].
    + exists (Returns resp), wb. repeat apply conj; [reflexivity | exact Hc | exact Hl |].
      right. left. destruct (Hret resp eq_refl) as (raw & details & Hg & ->). eauto.
    + cbn [is_exception].
      destruct (server_error_cases host cause wb) as [[_ E]|(e & Hs & E)]; rewrite E.
      * exists (Returns internal_error), (with_line wb (u "Server error: " ++ message cause)).
        repeat apply conj; [reflexivity | exact Hc | | left; reflexivity].
        destruct Hl as (lines & El). exists (lines ++ [u "Server error: " ++ message cause]).
        cbn [with_line printed]. rewrite El, app_assoc. reflexivity.
      * exists (Raises e), wb.
        repeat apply conj; [reflexivity | exact Hc | exact Hl |].
        right. right. exists e, cause. auto.
Qed.

Lemma response_cases_witness :
  exists r w',
    process_image_logged (utf8_host (Returns (j "[]"))) sample_upload no_effects = (r, w')
    /\ calls w' = [(u "image/png", [137; 80; 78; 71])]
    /\ (exists lines, printed w' = lines)
    /\ (r = Returns internal_error
        \/ (exists raw details,
              Returns (j "[]") = Returns raw
              /\ r = Returns {| status := 200;
                                body := success_body (clean_text (strip raw)) details |})
        \/ (exists e cause,
              r = Raises e /\ utf8_stdout (u "Server error: " ++ message cause) = Some e)).
Proof.
  refine (proj2 (proj2 (response_cases (utf8_host (Returns (j "[]"))) sample_upload
                          no_effects))
            {| filename := u "rx.png"; mimetype := u "image/png";
               content := [137; 80; 78; 71] |} _ _);
    [reflexivity | discriminate].
Defined.

(** ** The handler on a stream that takes every line *)

Lemma normalize_all_loop (host : Host) (items : list json) :
  match normalize_loop (unicode_decimal host) items with
  | (items', None) => normalize_all host items = Returns items'
  | (_, Some e) => exists f, normalize_all host items = Raises f /\ kind f = e
  end.
Proof.
  induction items as [|item rest IH]; [reflexivity|].
  cbn [normalize_loop normalize_all].
  destruct (normalize_item (unicode_decimal host) item) as [item'|e]; [|eauto].
  destruct (normalize_loop (unicode_decimal host) rest) as [rest' [e|]].
  - destruct IH as (f & -> & Hk). eauto.
  - rewrite IH. reflexivity.
Qed.

(** On a standard output that takes every line, within the limits of
    the interpreter, the logged handler
    returns the reply of [process_image] and makes the same calls of
    the model. *)
Lemma process_image_logged_quiet (host : Host)
    (files : Files) (w : World) :
  (forall line, stdout host line = None) ->
  (forall t, decoder_limit host t = None) ->
  (forall c raw z, generate_content host c = Returns raw ->
     json_loads (clean_text (strip raw)) = Ok (JInt z) ->
     (length (decimal (Z.abs z)) <= 4300)%nat) ->
  exists w',
    process_image_logged host files w
    = (Returns (process_image (unicode_decimal host) (quiet (generate_content host)) files).1, w')
    /\ calls w' = calls w ++ (process_image (unicode_decimal host) (quiet (generate_content host)) files).2.
Proof.
  intros Hq Hlim Hint.
  assert (Hprint : forall line w0, print host line w0 = (Returns tt, with_line w0 line)).
  { intros line w0. unfold print. rewrite Hq. reflexivity. }
  assert (Hse : forall e w0, exists w1,
             server_error host e w0 = (Returns internal_error, w1)
             /\ calls w1 = calls w0).
  { intros e w0. unfold server_error. rewrite bind_run, Hprint.
    eexists. split; reflexivity. }
  unfold process_image_logged, process_image.
  destruct (files_get (u "image") files) as [f|];
    [|exists w; split; [reflexivity | symmetry; apply app_nil_r]].
  destruct (filename f) as [|x r];
    [exists w; split; [reflexivity | symmetry; apply app_nil_r]|].
  cbn [fst snd]. unfold process_upload_logged, try_except, upload_body, process_upload.
  rewrite bind_run. unfold call_model at 1. unfold quiet at 1.
  destruct (generate_content host (mimetype f, content f)) as [raw|e] eqn:Hg.
  - rewrite bind_run, Hprint, bind_run. cbn [mbind res_bind].
    set (w2 := with_line _ _).
    assert (Hc2 : calls w2 = calls w ++ [(mimetype f, content f)]) by reflexivity.
    clearbody w2.
    assert (Hp : exists details w3,
               parse_reply (strip raw) = Ok (clean_text (strip raw), details)
               /\ parse_reply_logged host (strip raw) w2
                  = (Returns (clean_text (strip raw), details), w3)
               /\ calls w3 = calls w2).
    { unfold parse_reply, parse_reply_logged, try_except, parse_body, decode.
      rewrite bind_run, Hlim. unfold pure at 1.
      destruct (json_loads (clean_text (strip raw))) as [v|e] eqn:Hj.
      - assert (Hfb : forall s : str,
                  (s0 ← pure (Returns s);
                   _ ← print host (u "Gemini returned non-list, non-dict JSON: " ++ s0);
                   mret (clean_text (strip raw), @nil json)) w2
                  = (Returns (clean_text (strip raw), []),
                     with_line w2 (u "Gemini returned non-list, non-dict JSON: " ++ s))).
        { intros s. rewrite bind_run. unfold pure. rewrite bind_run, Hprint. reflexivity. }
        destruct v as [|b|z|fl|s|l|m];
          try (rewrite Hfb; do 2 eexists; repeat split; reflexivity);
          try (do 2 eexists; repeat split; reflexivity).
        pose proof (Hint _ _ _ Hg Hj) as Hz.
        unfold str_of_int, int_max_str_digits.
        destruct (Nat.ltb_spec 4300 (length (decimal (Z.abs z)))); [lia|].
        rewrite Hfb. do 2 eexists. repeat split; reflexivity.
      - apply json_loads_raises in Hj as ->. cbn [is_decode_error kind].
        unfold decode_failed. rewrite bind_run, Hprint, bind_run, Hprint.
        do 2 eexists. repeat split; reflexivity. }
    destruct Hp as (details & w3 & -> & -> & Hc3).
    rewrite bind_run. unfold pure. cbn [mbind res_bind].
    pose proof (normalize_all_loop host details) as Hl.
    destruct (normalize_loop (unicode_decimal host) details) as [details' [e|]].
    + destruct Hl as (fl & -> & _). cbn [is_exception].
      destruct (Hse fl w3) as (w4 & E & Hc4). exists w4.
      split; [exact E | congruence].
    + rewrite Hl. exists w3. split; [reflexivity | congruence].
  - cbn [is_exception mbind res_bind].
    destruct (Hse e {| calls := calls w ++ [(mimetype f, content f)];
                       printed := printed w |}) as (w1 & E & Hc1).
    exists w1. split; [exact E | exact Hc1].
Qed.
